(** * Viscoelastic3D: the control callbacks of the two simulation cases

    The repository holds two Basilisk cases, [simulationCases/dropAtomisation.c]
    and [testCases/dropImpact.c].  Each one registers the same four callbacks
    with the solver: [adapt], [writingFiles], [end] and [logWriting].  This
    development embeds those callbacks, one module per source file, and proves
    the properties the specification states about them.

    Conventions of the embedding.
    - A C [double] is a binary64 value, Rocq's primitive [float]; comparisons
      are [<?] and [<=?], so a NaN compares false with everything.
    - A C [int] is a [Z]; the test [i > 1e1] converts [i] to [double] exactly,
      so it is the integer test [10 < i].
    - What a callback does to the outside world is a trace of [Effect]s; how it
      leaves is an [Exit].  A callback that reaches the end of its body returns
      0 to the solver (the value Basilisk appends to every event).
    - Format strings are kept as they are spelled in the C source, with the
      escape [\n] left as the two characters backslash and n.
    - [assert] is compiled in ([NDEBUG] is not defined by either file).
    - The density macro [rho(f)], the C library's [pow] and the solver's own
      primitives lie outside the two files; the first two are parameters of
      the energy loop, the primitives are recorded as effects.
    - The mesh is split among cooperating workers.  A callback runs on every
      worker; [foreach (reduction(+:ke))] visits the worker's own cells and
      then adds the partial sums of all workers into one value that every
      worker sees. *)

From Stdlib Require Import ZArith List String Ascii Bool Lia DecimalString.
From Stdlib Require Import Floats.
From Stdlib Require Import Reals Lra.
From Stdlib Require Import Permutation Sorting.Sorted.
Import ListNotations.

Set Warnings "-inexact-float".

Open Scope string_scope.
Open Scope list_scope.
Open Scope Z_scope.

(** ** The C library and the solver primitives as seen by the callbacks *)

Module Runtime.

(** The streams the callbacks write to: the status stream [ferr] of Basilisk
    and named files. *)
Inductive Stream :=
| ferr
| file (name : string).

(** One argument of a [printf]-style call. *)
Inductive Arg :=
| IntArg (n : Z)
| DblArg (x : float)
| StrArg (s : string).

(** The solver fields the callbacks name: the volume fraction [f], the
    curvature [KAPPA] and the velocity components [u.x], [u.y], [u.z]. *)
Inductive Scalar :=
| s_f
| s_KAPPA
| s_u_x
| s_u_y
| s_u_z.

(** The observable actions of a callback, in program order: calls of the C
    library ([fopen], [fprintf], [fflush], [fclose]) and of the solver
    ([dump], [curvature], [adapt_wavelet]). *)
Inductive Effect :=
| Fopen (name mode : string) (opened : bool)
| Fprintf (s : Stream) (fmt : string) (args : list Arg)
| Fflush (s : Stream)
| Fclose (s : Stream)
| Dump (name : string)
| Curvature (c kappa : Scalar)
| AdaptWavelet (slist : list Scalar) (max : list float) (maxlevel minlevel : Z).

(** How a callback can leave before the end of its body. *)
Inductive Exit :=
| Return (code : Z)              (* a [return code;] statement *)
| AssertionFailed (expr : string) (* [assert] aborts the process *)
| NullStream.                     (* [fprintf] on the NULL result of a failed [fopen] *)

(** The part of the environment a callback step depends on: the rank of the
    worker and, for the [k]-th call of [fopen] in the step (counted from 0),
    whether the file it names can be opened. *)
Record World := {
  pid : Z;
  can_open : nat -> string -> bool
}.

(** Trace-writer monad with early exit. *)
Definition Ev (A : Type) : Type := (list Effect * (A + Exit))%type.

Definition ret {A : Type} (a : A) : Ev A := ([], inl a).

Definition bind {A B : Type} (m : Ev A) (k : A -> Ev B) : Ev B :=
  match m with
  | (tr, inl a) => let (tr', r) := k a in (tr ++ tr', r)
  | (tr, inr e) => (tr, inr e)
  end.

Definition emit (e : Effect) : Ev unit := ([e], inl tt).

Definition leave {A : Type} (e : Exit) : Ev A := ([], inr e).

Definition trace {A : Type} (m : Ev A) : list Effect := fst m.

Definition outcome {A : Type} (m : Ev A) : A + Exit := snd m.

(** [fopen]: the call is recorded with its result; a failed call yields the
    NULL stream, here [None]. *)
Definition fopen (w : World) (k : nat) (name mode : string) : Ev (option Stream) :=
  ([Fopen name mode (can_open w k name)],
   inl (if can_open w k name then Some (file name) else None)).

Definition fprintf (fp : option Stream) (fmt : string) (args : list Arg) : Ev unit :=
  match fp with
  | Some s => emit (Fprintf s fmt args)
  | None => leave NullStream
  end.

Definition fflush (fp : option Stream) : Ev unit :=
  match fp with
  | Some s => emit (Fflush s)
  | None => leave NullStream
  end.

Definition fclose (fp : option Stream) : Ev unit :=
  match fp with
  | Some s => emit (Fclose s)
  | None => leave NullStream
  end.

Definition dump (name : string) : Ev unit := emit (Dump name).

Definition assert (expr : string) (holds : bool) : Ev unit :=
  if holds then ret tt else leave (AssertionFailed expr).

Definition return_ {A : Type} (code : Z) : Ev A := leave (Return code).

Definition curvature (c kappa : Scalar) : Ev unit := emit (Curvature c kappa).

Definition adapt_wavelet (slist : list Scalar) (max : list float)
           (maxlevel minlevel : Z) : Ev unit :=
  emit (AdaptWavelet slist max maxlevel minlevel).

End Runtime.

Export Runtime.

Declare Scope ev_scope.
Delimit Scope ev_scope with ev.
Notation "x <- m ;; k" := (bind m (fun x => k))
  (at level 61, m at next level, right associativity) : ev_scope.
Notation "m ;; k" := (bind m (fun _ => k))
  (at level 61, right associativity) : ev_scope.
Open Scope ev_scope.

(** ** Formatting a double with [%5.4f]

    The value is printed in decimal with four digits after the point, rounded
    to nearest with ties to even on its exact binary value, and padded on the
    left with spaces to at least five characters. *)

Module Printf.

Definition digits (n : Z) : string :=
  NilZero.string_of_uint (N.to_uint (Z.to_N n)).

Fixpoint spaces (n : nat) : string :=
  match n with
  | O => ""
  | S n' => String " " (spaces n')
  end.

Definition pad_left (width : nat) (s : string) : string :=
  (spaces (width - String.length s) ++ s)%string.

Fixpoint zeros (n : nat) : string :=
  match n with
  | O => ""
  | S n' => String "0" (zeros n')
  end.

(** The [k] low decimal digits of [n], with leading zeros. *)
Definition fraction_digits (k : nat) (n : Z) : string :=
  let d := digits n in (zeros (k - String.length d) ++ d)%string.

Definition round_half_even (num den : Z) : Z :=
  let q := num / den in
  match (2 * (num mod den) ?= den) with
  | Lt => q
  | Gt => q + 1
  | Eq => if Z.even q then q else q + 1
  end.

(** [m * 2^e * 10^4], rounded to an integer. *)
Definition scaled4 (m : positive) (e : Z) : Z :=
  if 0 <=? e then Zpos m * 2 ^ e * 10000
  else round_half_even (Zpos m * 10000) (2 ^ (- e)).

Definition sign (s : bool) : string := if s then "-" else "".

Definition format_4f (x : float) : string :=
  match Prim2SF x with
  | S754_nan => "nan"
  | S754_infinity s => (sign s ++ "inf")%string
  | S754_zero s => (sign s ++ "0.0000")%string
  | S754_finite s m e =>
    let n := scaled4 m e in
    (sign s ++ digits (n / 10000) ++ "." ++ fraction_digits 4 (n mod 10000))%string
  end.

Definition format_5_4f (x : float) : string := pad_left 5 (format_4f x).

End Printf.

(** ** The solver framework: cells, arithmetic and the sum reduction *)

Module Basilisk.

(** The arithmetic the energy integral is written in, together with the
    framework macros it uses.  The callbacks run it on binary64 doubles
    ([binary64] below); [exact] reads the same expressions over the real
    numbers.  [rho] is the density macro [rho(f)] of the two-phase header and
    [pow] is the C library function applied to the macro [dimension]; both
    lie outside the two source files and stay parameters. *)
Record Numerics := {
  num : Type;
  lit_0 : num;                 (* 0. *)
  lit_0_5 : num;               (* 0.5 *)
  lit_2 : num;                 (* 2 *)
  pi : num;                    (* #define pi 3.14159265358979 *)
  add : num -> num -> num;
  mul : num -> num -> num;
  pow : num -> nat -> num;
  rho : num -> num
}.

(** The values a [foreach] iteration reads at one cell. *)
Record Cell (T : Type) := {
  f : T;
  u_x : T;
  u_y : T;
  u_z : T;
  y : T;
  Delta : T
}.

Arguments f {T} _.
Arguments u_x {T} _.
Arguments u_y {T} _.
Arguments u_z {T} _.
Arguments y {T} _.
Arguments Delta {T} _.

(** #define sq(x) ((x)*(x)) *)
Definition sq (N : Numerics) (x : num N) : num N := mul N x x.

(** The cells of the mesh as the workers own them.  One worker holds its
    cells in the order in which [foreach] visits them; [Combine] joins two
    groups of workers, and the shape of the tree is the order in which the
    reduction adds their partial sums, which is the reduction library's
    choice. *)
Inductive Mesh (T : Type) :=
| Worker (cells : list (Cell T))
| Combine (a b : Mesh T).

Arguments Worker {T} _.
Arguments Combine {T} _ _.

(** All cells of the mesh. *)
Fixpoint cells_of {T : Type} (m : Mesh T) : list (Cell T) :=
  match m with
  | Worker cells => cells
  | Combine a b => cells_of a ++ cells_of b
  end.

(** [double ke = 0.; foreach (...) ke += term;] on one worker: the running
    sum over its own cells in iteration order. *)
Definition local_sum (N : Numerics) (term : Cell (num N) -> num N)
           (cells : list (Cell (num N))) : num N :=
  fold_left (fun ke c => add N ke (term c)) cells (lit_0 N).

(** [double ke = 0.; foreach (reduction(+:ke)) ke += term;]: every worker
    runs the loop over its own cells, and the reduction adds the partial
    sums. *)
Fixpoint foreach_sum (N : Numerics) (term : Cell (num N) -> num N)
         (m : Mesh (num N)) : num N :=
  match m with
  | Worker cells => local_sum N term cells
  | Combine a b => add N (foreach_sum N term a) (foreach_sum N term b)
  end.

Definition binary64 (rho : float -> float) (pow : float -> nat -> float) : Numerics :=
  {| num := float;
     lit_0 := 0%float;
     lit_0_5 := 0.5%float;
     lit_2 := 2%float;
     pi := 3.14159265358979%float;
     add := PrimFloat.add;
     mul := PrimFloat.mul;
     pow := pow;
     rho := rho |}.

(** The value of the macro [pi], 3.14159265358979, as a real number. *)
Definition pi_exact : R := (314159265358979 / 100000000000000)%R.

Definition exact (rho : R -> R) : Numerics :=
  {| num := R;
     lit_0 := 0%R;
     lit_0_5 := (5 / 10)%R;
     lit_2 := 2%R;
     pi := pi_exact;
     add := Rplus;
     mul := Rmult;
     pow := fun x n => (x ^ n)%R;
     rho := rho |}.

(** A value for the parameter [pow] in examples: repeated multiplication,
    which agrees with the C function whenever the products are exact, as they
    are for the cell sizes [L0 / 2^level] of both cases. *)
Fixpoint pow_mul (x : float) (n : nat) : float :=
  match n with
  | O => 1%float
  | S O => x
  | S n' => (pow_mul x n' * x)%float
  end.

(** #define clamp(x,a,b) ((x) < (a) ? (a) : (x) > (b) ? (b) : (x)) *)
Definition clamp (x a b : float) : float :=
  if (x <? a)%float then a else if (b <? x)%float then b else x.

(** The density macro of Basilisk's two-phase header, which drop impact
    includes: [#define rho(f) (clamp(f,0.,1.)*(rho1 - rho2) + rho2)].  Drop
    atomisation takes its macro from the header [two-phaseVE.h].  Neither
    header is among the two files, so [rho] stays a parameter of the energy
    loop and this definition is a value for it. *)
Definition rho_two_phase (rho1 rho2 : float) (f : float) : float :=
  (clamp f 0 1 * (rho1 - rho2) + rho2)%float.

(** The times of an event declared [(t = 0; t += tsnap; t <= tmax)]: the
    event time starts at 0 and is advanced by [t += tsnap] in double
    arithmetic while [t <= tmax] holds. *)
Fixpoint event_times (fuel : nat) (t tsnap tmax : float) : list float :=
  match fuel with
  | O => []
  | S fuel' =>
    if (t <=? tmax)%float then t :: event_times fuel' (t + tsnap)%float tsnap tmax
    else []
  end.

End Basilisk.

Export Basilisk.

(** ** The solver calls of the set-up code

    [main] and the event [init] call the solver with arguments that are
    themselves code: a refinement condition, a level-set function, the body
    of a [foreach].  A call records them as functions of the cell. *)

Module Solver.

Inductive Call :=
| InitGrid (n : Z)
| Origin (x y z : float)
| System (command : string)
| Run
| Restore (name : string) (restored : bool)
| Refine (cond : float -> float -> float -> Z -> bool)
| Fraction (c : Scalar) (phi : float -> float -> float -> float)
| Foreach (update : Cell float -> Cell float).

(** The globals that [main] assigns before it calls [run]. *)
Record Globals := {
  g_L0 : float;
  g_MAXlevel : Z;
  g_tmax : float;
  g_We : float;
  g_Oh : float;
  g_Oha : float;
  g_De : float;
  g_Ec : float;
  g_rho1 : float;
  g_rho2 : float;
  g_mu1 : float;
  g_mu2 : float;
  g_G1 : float;
  g_G2 : float;
  g_lambda1 : float;
  g_lambda2 : float;
  g_sigma : float;
  g_dumpFile : string
}.

End Solver.

Export Solver.

(** ** simulationCases/dropAtomisation.c *)

Module DropAtomisation.

(** [grid/octree.h] is included, so [dimension] is 3; [VANILLA] is 0 and
    [AXI] is not defined, which selects the 3D scalar log file. *)
Definition dimension : nat := 3.
Definition logFile : string := "log3D-scalar.dat".

Definition tsnap : float := 0.1.
Definition fErr : float := 1e-2.
Definition KErr : float := 1e-4.
Definition VelErr : float := 1e-2.
Definition AErr : float := 1e-3.

(** The globals as [main] sets them. *)
Definition MAXlevel : Z := 7.
Definition RhoInOut : float := 830.
Definition De : float := 0.0.
Definition Ec : float := 0.0.
Definition We : float := 15000.
Definition Oh : float := 3e-3.
Definition Oha : float := (0.018 * Oh)%float.
Definition tmax : float := 200.
Definition dumpFile : string := "restart".
Definition rho1 : float := RhoInOut.
Definition rho2 : float := 1e0.

(** event adapt (i++) *)
Definition adapt (dimension : nat) (i : Z) : Ev unit :=
  curvature s_f s_KAPPA ;;
  adapt_wavelet
    ([s_f; s_KAPPA; s_u_x; s_u_y] ++ (if Nat.eqb dimension 3 then [s_u_z] else []))
    ([fErr; KErr; VelErr; VelErr] ++ (if Nat.eqb dimension 3 then [VelErr] else []))
    MAXlevel 4.

(** sprintf (nameOut, "intermediate/snapshot-%5.4f", t) *)
Definition nameOut (t : float) : string :=
  ("intermediate/snapshot-" ++ Printf.format_5_4f t)%string.

(** event writingFiles (t = 0; t += tsnap; t <= tmax) *)
Definition writingFiles (t : float) : Ev unit :=
  dump dumpFile ;;
  dump (nameOut t).

Definition writingFiles_times (fuel : nat) : list float :=
  event_times fuel 0 tsnap tmax.

(** The summand of the kinetic-energy loop of [logWriting]. *)
Definition ke_term (N : Numerics) (dimension : nat) (c : Cell (num N)) : num N :=
  mul N
    (mul N (mul N (lit_0_5 N) (rho N (f c)))
       (if Nat.eqb dimension 3
        then add N (add N (sq N (u_x c)) (sq N (u_y c))) (sq N (u_z c))
        else add N (sq N (u_x c)) (sq N (u_y c))))
    (pow N (Delta c) dimension).

Definition kinetic_energy (N : Numerics) (dimension : nat)
           (cells : Mesh (num N)) : num N :=
  foreach_sum N (ke_term N dimension) cells.

Definition header_fmt : string :=
  "Level %d, Oh %2.1e, We %2.1e, Oha %2.1e, De %2.1e, Ec %2.1e\n".
Definition header_args : list Arg :=
  [IntArg MAXlevel; DblArg Oh; DblArg We; DblArg Oha; DblArg De; DblArg Ec].

Definition blew_up : string := "The kinetic energy blew up. Stopping simulation\n".
Definition too_small : string := "kinetic energy too small now! Stopping!\n".

(** event logWriting (i++), from the declaration of [fp] on; [ke] is the
    value the reduction has left in the variable of that name. *)
Definition logWriting_body (w : World) (i : Z) (dt t ke : float) : Ev unit :=
  (if pid w =? 0 then
     let mode := if i =? 0 then "w" else "a" in
     fp <- fopen w 0%nat logFile mode ;;
     match fp with
     | None =>
       fprintf (Some ferr) "Error opening log file\n" [] ;;
       return_ 1
     | Some _ =>
       (if i =? 0 then
          fprintf (Some ferr) header_fmt header_args ;;
          fprintf (Some ferr) "i dt t ke\n" [] ;;
          fprintf fp header_fmt header_args ;;
          fprintf fp "i dt t ke rM\n" []
        else ret tt) ;;
       fprintf fp "%d %g %g %g\n" [IntArg i; DblArg dt; DblArg t; DblArg ke] ;;
       fprintf (Some ferr) "%d %g %g %g\n" [IntArg i; DblArg dt; DblArg t; DblArg ke] ;;
       fflush fp ;;
       fclose fp
     end
   else ret tt) ;;
  assert "ke > -1e-10" (-1e-10 <? ke)%float ;;
  if (10 <? i) && (pid w =? 0) then
    if ((1e6 <? ke) || (ke <? 1e-6))%float then
      let message := if (1e6 <? ke)%float then blew_up else too_small in
      fprintf (Some ferr) "%s" [StrArg message] ;;
      fp <- fopen w 1%nat "log" "a" ;;
      fprintf fp "%s" [StrArg message] ;;
      fflush fp ;;
      fclose fp ;;
      dump dumpFile ;;
      return_ 1
    else ret tt
  else ret tt.

(** event logWriting (i++) *)
Definition logWriting (rho : float -> float) (pow : float -> nat -> float)
           (w : World) (i : Z) (dt t : float) (cells : Mesh float) : Ev unit :=
  let ke := kinetic_energy (binary64 rho pow) dimension cells in
  logWriting_body w i dt t ke.

(** char nameOut[80], dumpFile[80]; char comm[80] in [main] *)
Definition buffer_size : nat := 80.

(** #define R2(x,y,z)  (sq(x-3.) + sq(y) + sq(z)) *)
Definition R2 (x y z : float) : float :=
  ((x - 3) * (x - 3) + y * y + z * z)%float.

(** The condition handed to [refine] in [init]. *)
Definition refine_cond (x y z : float) (level : Z) : bool :=
  (R2 x y z <? 1.1)%float && (0.9 <? R2 x y z)%float && (level <? MAXlevel).

(** The level-set function handed to [fraction] in [init]. *)
Definition drop_shape (x y z : float) : float := (1 - R2 x y z)%float.

(** event init (t = 0); [can_restore] tells whether [restore] finds the file. *)
Definition init (can_restore : string -> bool) : list Call :=
  Restore dumpFile (can_restore dumpFile) ::
  (if negb (can_restore dumpFile)
   then [Refine refine_cond; Fraction s_f drop_shape]
   else []).

(** event end (t = end) *)
Definition end_event (w : World) : Ev unit :=
  if pid w =? 0
  then fprintf (Some ferr) "Level %d, Oh %2.1e, We %2.1e, Oha %2.1e, De %2.1e, Ec %2.1e\n"
               [IntArg MAXlevel; DblArg Oh; DblArg We; DblArg Oha; DblArg De; DblArg Ec]
  else ret tt.

(** int main (int argc, char const *argv[]): the globals it assigns and the
    calls it makes, in program order.  [argc] and [argv] are not read. *)
Definition L0 : float := 20.

Definition main_globals : Globals :=
  {| g_L0 := L0;
     g_MAXlevel := MAXlevel;
     g_tmax := tmax;
     g_We := We;
     g_Oh := Oh;
     g_Oha := Oha;
     g_De := De;
     g_Ec := Ec;
     g_rho1 := rho1;
     g_rho2 := rho2;
     g_mu1 := (PrimFloat.sqrt RhoInOut * Oh / PrimFloat.sqrt We)%float;
     g_mu2 := (PrimFloat.sqrt RhoInOut * Oha / PrimFloat.sqrt We)%float;
     g_G1 := (Ec / We)%float;
     g_G2 := 0.0%float;
     g_lambda1 := (De * PrimFloat.sqrt We)%float;
     g_lambda2 := 0.0%float;
     g_sigma := (1.0 / We)%float;
     g_dumpFile := dumpFile |}.

Definition main (dimension : nat) : list Call :=
  [InitGrid (Z.shiftl 1 6);
   (if Nat.eqb dimension 3
    then Origin 0 (- L0 / 2) (- L0 / 2)
    else Origin 0 (- L0 / 2) 0);
   System "mkdir -p intermediate";
   Run].

End DropAtomisation.

(** ** testCases/dropImpact.c *)

Module DropImpact.

(** [grid/quadtree.h] is included: two velocity components. *)
Definition tsnap : float := 1e-1.
Definition fErr : float := 1e-3.
Definition KErr : float := 1e-6.
Definition VelErr : float := 1e-2.

(** The globals as [main] sets them. *)
Definition MAXlevel : Z := 6.
Definition tmax : float := 3.0.
Definition We : float := 5.0.
Definition Oh : float := 1e-2.
Definition De : float := 1e-2.
Definition Ec : float := 1e-2.
Definition Oha : float := (1e-2 * Oh)%float.
Definition dumpFile : string := "dump".
Definition rho1 : float := 1.
Definition rho2 : float := 1e-3.

(** event adapt (i++) *)
Definition adapt (i : Z) : Ev unit :=
  curvature s_f s_KAPPA ;;
  adapt_wavelet [s_f; s_u_x; s_u_y; s_KAPPA]
                [fErr; VelErr; VelErr; KErr]
                MAXlevel 4.

(** sprintf (nameOut, "intermediate/snapshot-%5.4f", t) *)
Definition nameOut (t : float) : string :=
  ("intermediate/snapshot-" ++ Printf.format_5_4f t)%string.

(** event writingFiles (t = 0; t += tsnap; t <= tmax) *)
Definition writingFiles (t : float) : Ev unit :=
  dump dumpFile ;;
  dump (nameOut t).

Definition writingFiles_times (fuel : nat) : list float :=
  event_times fuel 0 tsnap tmax.

(** The summand of the kinetic-energy loop of [logWriting]. *)
Definition ke_term (N : Numerics) (c : Cell (num N)) : num N :=
  mul N
    (mul N (mul N (mul N (lit_2 N) (pi N)) (y c))
       (mul N (mul N (lit_0_5 N) (rho N (f c)))
          (add N (sq N (u_x c)) (sq N (u_y c)))))
    (sq N (Delta c)).

Definition kinetic_energy (N : Numerics) (cells : Mesh (num N)) : num N :=
  foreach_sum N (ke_term N) cells.

Definition header_fmt : string := "Level %d, Oh %2.1e, Oha %2.1e\n".
Definition header_args : list Arg := [IntArg MAXlevel; DblArg Oh; DblArg Oha].

Definition blew_up : string := "The kinetic energy blew up. Stopping simulation\n".
Definition too_small : string := "kinetic energy too small now! Stopping!\n".

(** event logWriting (i++), from the declaration of [fp] on; [ke] is the
    value the reduction has left in the variable of that name. *)
Definition logWriting_body (w : World) (i : Z) (dt t ke : float) : Ev unit :=
  (if pid w =? 0 then
     let mode := if i =? 0 then "w" else "a" in
     fp <- fopen w 0%nat "log" mode ;;
     match fp with
     | None =>
       fprintf (Some ferr) "Error opening log file\n" [] ;;
       return_ 1
     | Some _ =>
       (if i =? 0 then
          fprintf (Some ferr) header_fmt header_args ;;
          fprintf (Some ferr) "i dt t ke\n" [] ;;
          fprintf fp header_fmt header_args ;;
          fprintf fp "i dt t ke rM\n" []
        else ret tt) ;;
       fprintf fp "%d %g %g %g\n" [IntArg i; DblArg dt; DblArg t; DblArg ke] ;;
       fprintf (Some ferr) "%d %g %g %g\n" [IntArg i; DblArg dt; DblArg t; DblArg ke] ;;
       fflush fp ;;
       fclose fp
     end
   else ret tt) ;;
  assert "ke > -1e-10" (-1e-10 <? ke)%float ;;
  if (10 <? i) && (pid w =? 0) then
    if ((1e2 <? ke) || (ke <? 1e-8))%float then
      let message := if (1e2 <? ke)%float then blew_up else too_small in
      fprintf (Some ferr) "%s" [StrArg message] ;;
      fp <- fopen w 1%nat "log" "a" ;;
      fprintf fp "%s" [StrArg message] ;;
      fflush fp ;;
      fclose fp ;;
      dump dumpFile ;;
      return_ 1
    else ret tt
  else ret tt.

(** event logWriting (i++) *)
Definition logWriting (rho : float -> float) (pow : float -> nat -> float)
           (w : World) (i : Z) (dt t : float) (cells : Mesh float) : Ev unit :=
  fprintf (Some ferr) "i %d, t %g\n" [IntArg i; DblArg t] ;;
  let ke := kinetic_energy (binary64 rho pow) cells in
  logWriting_body w i dt t ke.

(** char nameOut[80], dumpFile[80]; char comm[80] in [main] *)
Definition buffer_size : nat := 80.

(** #define xDist (5e-2) *)
Definition xDist : float := 5e-2.

(** #define R2(x,y,z)  (sq(x-1.-xDist) + sq(y) + sq(z)) *)
Definition R2 (x y z : float) : float :=
  ((x - 1 - xDist) * (x - 1 - xDist) + y * y + z * z)%float.

(** The condition handed to [refine] in [init]. *)
Definition refine_cond (x y z : float) (level : Z) : bool :=
  (R2 x y z <? 1.1)%float && (0.9 <? R2 x y z)%float && (level <? MAXlevel).

(** The level-set function handed to [fraction] in [init]. *)
Definition drop_shape (x y z : float) : float := (1 - R2 x y z)%float.

(** foreach() { u.x[] = -f[]*1.0; } *)
Definition init_velocity (c : Cell float) : Cell float :=
  {| f := f c;
     u_x := (- f c * 1.0)%float;
     u_y := u_y c;
     u_z := u_z c;
     y := y c;
     Delta := Delta c |}.

(** event init (t = 0); [can_restore] tells whether [restore] finds the file. *)
Definition init (can_restore : string -> bool) : list Call :=
  Restore dumpFile (can_restore dumpFile) ::
  (if negb (can_restore dumpFile)
   then [Refine refine_cond; Fraction s_f drop_shape; Foreach init_velocity]
   else []).

(** event end (t = end) *)
Definition end_event (w : World) : Ev unit :=
  if pid w =? 0
  then fprintf (Some ferr) "Level %d, Oh %2.1e\n" [IntArg MAXlevel; DblArg Oh]
  else ret tt.

(** int main (int argc, char const *argv[]): the globals it assigns and the
    calls it makes, in program order.  [argc] and [argv] are not read. *)
Definition L0 : float := 4.0.

Definition main_globals : Globals :=
  {| g_L0 := L0;
     g_MAXlevel := MAXlevel;
     g_tmax := tmax;
     g_We := We;
     g_Oh := Oh;
     g_Oha := Oha;
     g_De := De;
     g_Ec := Ec;
     g_rho1 := rho1;
     g_rho2 := rho2;
     g_mu1 := (Oh / PrimFloat.sqrt We)%float;
     g_mu2 := (Oha / PrimFloat.sqrt We)%float;
     g_G1 := (Ec / We)%float;
     g_G2 := 0.0%float;
     g_lambda1 := (De * PrimFloat.sqrt We)%float;
     g_lambda2 := 0.0%float;
     g_sigma := (1.0 / We)%float;
     g_dumpFile := dumpFile |}.

Definition main : list Call :=
  [InitGrid (Z.shiftl 1 4);
   System "mkdir -p intermediate";
   Run].

End DropImpact.

(** ** Reading a callback result *)

Module Monitor.

(** The termination decision of the specification.  [logWriting] itself never
    decides a normal stop: that is left to the event [end]. *)
Inductive TerminationDecision :=
| CONTINUE
| STOP_ABORT (reason : string).

(** The decision carried by a result of [logWriting]: it continues when the
    body runs to its end, and it stops with [reason] when it leaves by
    [return 1] after announcing [reason] on the status stream. *)
Definition decides (r : Ev unit) (d : TerminationDecision) : Prop :=
  match d with
  | CONTINUE => outcome r = inl tt
  | STOP_ABORT reason =>
    outcome r = inr (Return 1) /\ In (Fprintf ferr "%s" [StrArg reason]) (trace r)
  end.

Definition is_dump (e : Effect) : bool :=
  match e with
  | Dump _ => true
  | _ => false
  end.

(** A line written to the file [name] with the format [fmt]. *)
Definition is_line (name fmt : string) (e : Effect) : bool :=
  match e with
  | Fprintf (file n) f _ => String.eqb n name && String.eqb f fmt
  | _ => false
  end.

(** A [%s] line carrying [reason], written to the file [name]. *)
Definition is_reason_line (name reason : string) (e : Effect) : bool :=
  match e with
  | Fprintf (file n) "%s" [StrArg m] => String.eqb n name && String.eqb m reason
  | _ => false
  end.

Definition is_open (name : string) (e : Effect) : bool :=
  match e with
  | Fopen n _ _ => String.eqb n name
  | _ => false
  end.

Definition count (p : Effect -> bool) (tr : list Effect) : nat :=
  List.length (filter p tr).

(** The lines written to the file [name], in program order. *)
Fixpoint lines_of (name : string) (tr : list Effect) : list (string * list Arg) :=
  match tr with
  | [] => []
  | Fprintf (file n) fmt args :: tr' =>
    if String.eqb n name then (fmt, args) :: lines_of name tr' else lines_of name tr'
  | _ :: tr' => lines_of name tr'
  end.

(** The files that receive a line of format [fmt], in program order. *)
Fixpoint written_with (fmt : string) (tr : list Effect) : list string :=
  match tr with
  | [] => []
  | Fprintf (file n) f _ :: tr' =>
    if String.eqb f fmt then n :: written_with fmt tr' else written_with fmt tr'
  | _ :: tr' => written_with fmt tr'
  end.

(** What the solver hands to [logWriting] at one step. *)
Record StepData := {
  step_dt : float;
  step_t : float;
  step_ke : float
}.

(** The steps [i], [i+1], ... of a run as far as [logWriting] is concerned:
    the callback is invoked once per step, and the run ends with the first
    invocation that does not reach the end of its body. *)
Fixpoint run (body : World -> Z -> float -> float -> float -> Ev unit)
         (w : World) (data : Z -> StepData) (steps : nat) (i : Z) : Ev unit :=
  match steps with
  | O => ret tt
  | S steps' =>
    body w i (step_dt (data i)) (step_t (data i)) (step_ke (data i)) ;;
    run body w data steps' (i + 1)
  end.

End Monitor.

Export Monitor.

(** ** The energy integral in the words of the specification *)

Module EnergySpec.

Section Exact.

Variable density : R -> R.

(** |velocity|^2 in [d] space dimensions. *)
Definition speed2 (d : nat) (c : Cell R) : R :=
  if Nat.eqb d 3 then (u_x c * u_x c + u_y c * u_y c + u_z c * u_z c)%R
  else (u_x c * u_x c + u_y c * u_y c)%R.

(** Delta^d *)
Definition measure_cartesian (d : nat) (c : Cell R) : R := (Delta c ^ d)%R.

(** 2 pi y Delta^2 *)
Definition measure_axisymmetric (c : Cell R) : R :=
  (2 * pi_exact * y c * (Delta c * Delta c))%R.

(** 0.5 * density(cell) * |velocity(cell)|^2 * cellVolumeMeasure *)
Definition cell_energy (d : nat) (measure : Cell R -> R) (c : Cell R) : R :=
  (5 / 10 * density (f c) * speed2 d c * measure c)%R.

(** The sum over all cells. *)
Fixpoint total (g : Cell R -> R) (cells : list (Cell R)) : R :=
  match cells with
  | [] => 0%R
  | c :: cells' => (g c + total g cells')%R
  end.

End Exact.

End EnergySpec.

Export EnergySpec.

(** ** Checkpoint names of a whole schedule *)

Module Schedule.

(** The event times of [writingFiles] in the two cases.  The fuel exceeds the
    number of times in each schedule, so both lists end because [t <= tmax]
    fails. *)
Definition atomisation_times : list float := DropAtomisation.writingFiles_times 2002.
Definition impact_times : list float := DropImpact.writingFiles_times 32.

(** The nominal times [k / 10], the doubles nearest to 0, 0.1, 0.2, ... *)
Definition nominal_times (n : nat) : list float :=
  map (fun k => (of_uint63 (Uint63.of_Z (Z.of_nat k)) / 10)%float) (seq 0 n).

Definition atomisation_names : list string :=
  map DropAtomisation.nameOut atomisation_times.
Definition impact_names : list string :=
  map DropImpact.nameOut impact_times.

(** Lexicographic order on file names, by character code. *)
Definition lex_lt (a b : string) : Prop := String.ltb a b = true.

(** Shorter names first, names of one length lexicographically. *)
Definition shortlexb (a b : string) : bool :=
  let la := String.length a in
  let lb := String.length b in
  Nat.ltb la lb || (Nat.eqb la lb && String.ltb a b).

Definition shortlex_lt (a b : string) : Prop := shortlexb a b = true.

(** Lexicographic order among names of one length. *)
Definition lex_lt_same_length (a b : string) : Prop :=
  String.length a = String.length b -> lex_lt a b.

(** Every element is related to its successor. *)
Fixpoint increasingb (r : string -> string -> bool) (l : list string) : bool :=
  match l with
  | x :: (y :: _) as l' => r x y && increasingb r l'
  | _ => true
  end.

End Schedule.

Export Schedule.

(** ** Predicates on doubles *)

Module Binary64.

(** [0 <= x] as C evaluates it: false for a NaN, true for both zeros. *)
Definition nonneg (x : float) : Prop := (0 <=? x)%float = true.

Definition SFnonneg (a : spec_float) : Prop := SFleb (S754_zero false) a = true.

(** [!(x < 0)] as C evaluates it: true for a NaN and for both zeros. *)
Definition not_negative (x : float) : Prop := (x <? 0)%float = false.

Definition SFnotneg (a : spec_float) : Prop := SFltb a (S754_zero false) = false.

(** The value [m * 2^e] of a double, scaled by [2^2200] so that it is an
    integer for every exponent the arithmetic meets. *)
Definition scaled (m e : Z) : Z := m * 2 ^ (e + 2200).

(** A mantissa [M] after [k] right shifts: what is left of it, and whether
    the two rounding bits remember a remainder. *)
Definition shifted (M k : Z) (mrs : shr_record) : Prop :=
  0 <= shr_m mrs /\
  exists rem,
    M = shr_m mrs * 2 ^ k + rem /\ 0 <= rem < 2 ^ k /\
    (rem = 0 -> shr_r mrs = false /\ shr_s mrs = false).

(** The sign bit of a value that has one. *)
Definition same_sign (s : bool) (a : spec_float) : Prop :=
  match a with
  | S754_zero s' | S754_infinity s' | S754_finite s' _ _ => s' = s
  | S754_nan => True
  end.

End Binary64.

Export Binary64.

(** ** Sample inputs *)

Module Examples.

(** Rank 0 when every file can be opened. *)
Definition rank0 : World := {| pid := 0; can_open := fun _ _ => true |}.

(** Rank 0 when no file can be opened. *)
Definition rank0_no_files : World := {| pid := 0; can_open := fun _ _ => false |}.

(** A rank other than 0. *)
Definition rank1 : World := {| pid := 1; can_open := fun _ _ => true |}.

(** Two cells with real-valued fields. *)
Definition cell_a : Cell R :=
  {| f := 1%R; u_x := 1%R; u_y := 2%R; u_z := 3%R; y := 1%R; Delta := (1 / 2)%R |}.
Definition cell_b : Cell R :=
  {| f := 0%R; u_x := 4%R; u_y := 0%R; u_z := 1%R; y := 3%R; Delta := (1 / 4)%R |}.

(** A cell of liquid at rest, and the same cell with a NaN velocity. *)
Definition cell_at_rest : Cell float :=
  {| f := 1%float; u_x := 0%float; u_y := 0%float; u_z := 0%float;
     y := 1%float; Delta := 0.5%float |}.
Definition cell_nan : Cell float :=
  {| f := 1%float; u_x := nan; u_y := 0%float; u_z := 0%float;
     y := 1%float; Delta := 0.5%float |}.

(** Three cells of liquid moving along [x] at 0.1, 0.2 and 0.3. *)
Definition cell_1 : Cell float :=
  {| f := 1%float; u_x := 0.1%float; u_y := 0%float; u_z := 0%float;
     y := 0.25%float; Delta := 0.5%float |}.
Definition cell_2 : Cell float :=
  {| f := 1%float; u_x := 0.2%float; u_y := 0%float; u_z := 0%float;
     y := 0.75%float; Delta := 0.5%float |}.
Definition cell_3 : Cell float :=
  {| f := 1%float; u_x := 0.3%float; u_y := 0%float; u_z := 0%float;
     y := 1.25%float; Delta := 0.5%float |}.

(** Three cells of a quadtree at [y] = 0.25, 0.75 and 1.25. *)
Definition cell_4 : Cell float :=
  {| f := 1%float; u_x := 1%float; u_y := 0%float; u_z := 0%float;
     y := 0.25%float; Delta := 0.5%float |}.
Definition cell_5 : Cell float :=
  {| f := 1%float; u_x := 0.5%float; u_y := 0.25%float; u_z := 0%float;
     y := 0.75%float; Delta := 0.5%float |}.
Definition cell_6 : Cell float :=
  {| f := 1%float; u_x := 0.3%float; u_y := 0.1%float; u_z := 0%float;
     y := 1.25%float; Delta := 0.5%float |}.

(** A cell of liquid moving at 1e4, whose energy is above both upper bounds. *)
Definition cell_fast : Cell float :=
  {| f := 1%float; u_x := 1e4%float; u_y := 0%float; u_z := 0%float;
     y := 1%float; Delta := 0.5%float |}.

(** A moving cell. *)
Definition cell_moving : Cell float :=
  {| f := 1%float; u_x := (-1)%float; u_y := 0.5%float; u_z := 0%float;
     y := 1%float; Delta := 0.5%float |}.

(** Two workers, one holding a fast cell and one a moving cell. *)
Definition two_workers : Mesh float :=
  Combine (Worker [cell_fast]) (Worker [cell_moving]).

End Examples.

Export Examples.

(** ** Reading the traces of the other callbacks *)

Module Discipline.

(** The one file a callback may have open, and whether it has been written
    to since the last flush. *)
Inductive FileState :=
| Closed
| OpenClean (name : string)
| OpenDirty (name : string).

(** One effect seen by the file discipline: a file is opened only when none
    is open, written and flushed only while it is open, closed only when it
    is open and flushed, and a checkpoint is written only when no file is
    open.  [None] is a breach. *)
Definition stream_step (st : FileState) (e : Effect) : option FileState :=
  match e, st with
  | Fopen n _ true, Closed => Some (OpenClean n)
  | Fopen _ _ true, _ => None
  | Fopen _ _ false, _ => Some st
  | Fprintf ferr _ _, _ => Some st
  | Fprintf (file n) _ _, OpenClean m
  | Fprintf (file n) _ _, OpenDirty m => if String.eqb n m then Some (OpenDirty m) else None
  | Fprintf (file _) _ _, Closed => None
  | Fflush (file n), OpenClean m
  | Fflush (file n), OpenDirty m => if String.eqb n m then Some (OpenClean m) else None
  | Fflush _, _ => None
  | Fclose (file n), OpenClean m => if String.eqb n m then Some Closed else None
  | Fclose _, _ => None
  | Dump _, Closed => Some Closed
  | Dump _, _ => None
  | Curvature _ _, _ => Some st
  | AdaptWavelet _ _ _ _, _ => Some st
  end.

Fixpoint stream_run (st : FileState) (tr : list Effect) : option FileState :=
  match tr with
  | [] => Some st
  | e :: tr' =>
    match stream_step st e with
    | Some st' => stream_run st' tr'
    | None => None
    end
  end.

(** The lines written to the status stream, in program order. *)
Fixpoint ferr_lines (tr : list Effect) : list (string * list Arg) :=
  match tr with
  | [] => []
  | Fprintf ferr fmt args :: tr' => (fmt, args) :: ferr_lines tr'
  | _ :: tr' => ferr_lines tr'
  end.

(** The lines written to files, whichever the file, in program order. *)
Fixpoint file_lines (tr : list Effect) : list (string * list Arg) :=
  match tr with
  | [] => []
  | Fprintf (file _) fmt args :: tr' => (fmt, args) :: file_lines tr'
  | _ :: tr' => file_lines tr'
  end.

(** The form in which a line of a file appears on the status stream: the
    line of column names loses its last column, every other line is copied. *)
Definition status_form (l : string * list Arg) : string * list Arg :=
  if String.eqb (fst l) "i dt t ke rM\n" then ("i dt t ke\n", snd l) else l.

(** Effects other than writing to the status stream. *)
Definition touches_files (e : Effect) : bool :=
  match e with
  | Fprintf ferr _ _ => false
  | _ => true
  end.

(** The kind of tolerance each field is adapted with. *)
Inductive Tolerance := of_f | of_KAPPA | of_velocity.

Definition tolerance_kind (s : Scalar) : Tolerance :=
  match s with
  | s_f => of_f
  | s_KAPPA => of_KAPPA
  | s_u_x | s_u_y | s_u_z => of_velocity
  end.

(** The field list and the tolerance list of the [adapt_wavelet] call of a
    trace. *)
Fixpoint adapt_lists (tr : list Effect) : option (list Scalar * list float) :=
  match tr with
  | [] => None
  | AdaptWavelet slist max _ _ :: _ => Some (slist, max)
  | _ :: tr' => adapt_lists tr'
  end.

(** [x == 0] as C evaluates it: true for both zeros. *)
Definition is_zero (x : float) : Prop := (x =? 0)%float = true.

(** A cell whose velocity components are all zero; [u.z] exists in three
    dimensions only. *)
Definition at_rest (dimension : nat) (c : Cell float) : Prop :=
  is_zero (u_x c) /\ is_zero (u_y c) /\ (dimension = 3%nat -> is_zero (u_z c)).

(** The calls of a list that come before the first [Run]. *)
Fixpoint before_run (calls : list Call) : list Call :=
  match calls with
  | [] => []
  | Run :: _ => []
  | c :: calls' => c :: before_run calls'
  end.

(** The directories named by the [mkdir -p] commands of a list of calls. *)
Fixpoint made_directories (calls : list Call) : list string :=
  match calls with
  | [] => []
  | System cmd :: calls' =>
    if String.prefix "mkdir -p " cmd
    then String.substring 9 (String.length cmd - 9) cmd :: made_directories calls'
    else made_directories calls'
  | _ :: calls' => made_directories calls'
  end.

(** The files a list of calls restores from. *)
Fixpoint restored_files (calls : list Call) : list string :=
  match calls with
  | [] => []
  | Restore name _ :: calls' => name :: restored_files calls'
  | _ :: calls' => restored_files calls'
  end.

(** The checkpoint files a trace writes. *)
Fixpoint dumped_files (tr : list Effect) : list string :=
  match tr with
  | [] => []
  | Dump name :: tr' => name :: dumped_files tr'
  | _ :: tr' => dumped_files tr'
  end.

(** Rank 0 when only the first [fopen] of a step succeeds. *)
Definition rank0_run_log_only : World :=
  {| pid := 0; can_open := fun k _ => Nat.eqb k 0 |}.

End Discipline.

Export Discipline.

(** * Properties *)

(** ** The order of doubles *)

Section FloatOrder.

Lemma compare_cont_Eq (p q : positive) : Pos.compare_cont Eq p q = Pos.compare p q.
Proof. reflexivity. Qed.

Ltac cmp_cases :=
  repeat match goal with
  | |- context [Z.compare ?a ?b] => destruct (Z.compare_spec a b)
  | H : context [Z.compare ?a ?b] |- _ => destruct (Z.compare_spec a b)
  | |- context [Pos.compare ?a ?b] => destruct (Pos.compare_spec a b)
  | H : context [Pos.compare ?a ?b] |- _ => destruct (Pos.compare_spec a b)
  end.

Ltac sf_order :=
  unfold SFltb, SFleb, SFcompare;
  repeat match goal with
  | x : spec_float |- _ => destruct x
  | s : bool |- _ => destruct s
  end;
  intros; rewrite ?compare_cont_Eq in *;
  try discriminate; try reflexivity;
  cmp_cases; subst; simpl in *; try discriminate; try reflexivity; try lia.

Lemma SFltb_trans (a b c : spec_float) :
  SFltb a b = true -> SFltb b c = true -> SFltb a c = true.
Proof. sf_order. Qed.

Lemma SFltb_leb_trans (a b c : spec_float) :
  SFltb a b = true -> SFleb b c = true -> SFltb a c = true.
Proof. sf_order. Qed.

Lemma SFleb_not_ltb (a b : spec_float) :
  SFleb a b = true -> SFltb b a = false.
Proof. sf_order. Qed.

Lemma SFltb_asym (a b : spec_float) :
  SFltb a b = true -> SFltb b a = false.
Proof. sf_order. Qed.

Lemma SFltb_leb (a b : spec_float) :
  SFltb a b = true -> SFleb a b = true.
Proof. sf_order. Qed.

Lemma ltb_trans (a b c : float) :
  (a <? b)%float = true -> (b <? c)%float = true -> (a <? c)%float = true.
Proof. rewrite !ltb_spec. apply SFltb_trans. Qed.

Lemma ltb_leb_trans (a b c : float) :
  (a <? b)%float = true -> (b <=? c)%float = true -> (a <? c)%float = true.
Proof. rewrite !ltb_spec, leb_spec. apply SFltb_leb_trans. Qed.

Lemma leb_not_ltb (a b : float) :
  (a <=? b)%float = true -> (b <? a)%float = false.
Proof. rewrite ltb_spec, leb_spec. apply SFleb_not_ltb. Qed.

Lemma ltb_asym (a b : float) :
  (a <? b)%float = true -> (b <? a)%float = false.
Proof. rewrite !ltb_spec. apply SFltb_asym. Qed.

Lemma ltb_leb (a b : float) :
  (a <? b)%float = true -> (a <=? b)%float = true.
Proof. rewrite ltb_spec, leb_spec. apply SFltb_leb. Qed.

(** A double above a bound that is itself above [-1e-10] passes the
    assertion of [logWriting]. *)
Lemma above_passes (c ke : float) :
  (-1e-10 <? c)%float = true -> (c <? ke)%float = true ->
  (-1e-10 <? ke)%float = true.
Proof. apply ltb_trans. Qed.

(** A double below [lo] is not above [hi] when [lo < hi]. *)
Lemma below_not_above (lo hi ke : float) :
  (lo <? hi)%float = true -> (ke <? lo)%float = true -> (hi <? ke)%float = false.
Proof.
  intros Hc Hlo. apply ltb_asym. now apply ltb_trans with lo.
Qed.

Lemma nonneg_passes (ke : float) : nonneg ke -> (-1e-10 <? ke)%float = true.
Proof.
  intros H. apply ltb_leb_trans with 0%float; [reflexivity | exact H].
Qed.

End FloatOrder.

(** ** Signs of sums and products of doubles *)

Section FloatSign.

Lemma shr_1_nonneg (mrs : shr_record) : 0 <= shr_m mrs -> 0 <= shr_m (shr_1 mrs).
Proof.
  destruct mrs as [m r s]; simpl.
  destruct m as [|p|p]; simpl; try lia.
  destruct p; simpl; lia.
Qed.

Lemma iter_shr_1_nonneg (p : positive) :
  forall mrs, 0 <= shr_m mrs -> 0 <= shr_m (SpecFloat.iter_pos shr_1 p mrs).
Proof.
  induction p; simpl; intros mrs H; auto using shr_1_nonneg.
Qed.

Lemma shr_fexp_nonneg (m e : Z) (l : location) :
  0 <= m -> 0 <= shr_m (fst (shr_fexp prec emax m e l)).
Proof.
  intros H. unfold shr_fexp, shr.
  assert (H0 : 0 <= shr_m (shr_record_of_loc m l)).
  { destruct l as [|[]]; simpl; assumption. }
  destruct (fexp prec emax (Zdigits2 m + e) - e); simpl; auto.
  now apply iter_shr_1_nonneg.
Qed.

Lemma round_nearest_even_nonneg (m : Z) (l : location) :
  0 <= m -> 0 <= round_nearest_even m l.
Proof.
  intros H. destruct l as [|[]]; simpl; try lia.
  destruct (Z.even m); lia.
Qed.

(** Rounding keeps the sign it is given. *)
Lemma binary_round_aux_sign (s : bool) (m e : Z) (l : location) :
  same_sign s (binary_round_aux prec emax s m e l).
Proof.
  unfold binary_round_aux.
  destruct (shr_fexp prec emax m e l) as [mrs' e'].
  destruct (shr_fexp prec emax _ e' loc_Exact) as [mrs'' e''].
  destruct (shr_m mrs''); simpl; auto.
  destruct (e'' <=? _); simpl; auto.
Qed.

(** Rounding a nonnegative mantissa never yields a NaN. *)
Lemma binary_round_aux_not_nan (s : bool) (m e : Z) (l : location) :
  0 <= m -> binary_round_aux prec emax s m e l <> S754_nan.
Proof.
  intros H. unfold binary_round_aux.
  pose proof (shr_fexp_nonneg m e l H) as H1.
  destruct (shr_fexp prec emax m e l) as [mrs' e']. simpl in H1.
  pose proof (shr_fexp_nonneg _ e' loc_Exact
                (round_nearest_even_nonneg _ (loc_of_shr_record mrs') H1)) as H2.
  destruct (shr_fexp prec emax _ e' loc_Exact) as [mrs'' e'']. simpl in H2.
  destruct (shr_m mrs''); try discriminate; try lia.
  destruct (e'' <=? _); discriminate.
Qed.

Lemma SFnonneg_same_sign (a : spec_float) :
  a <> S754_nan -> same_sign false a -> SFnonneg a.
Proof.
  unfold SFnonneg. destruct a; simpl; intros H1 H2; subst; try reflexivity.
  congruence.
Qed.

Lemma SFnonneg_inv (a : spec_float) :
  SFnonneg a ->
  match a with
  | S754_zero _ => True
  | S754_infinity s | S754_finite s _ _ => s = false
  | S754_nan => False
  end.
Proof.
  unfold SFnonneg.
  destruct a as [s|s| |s m e]; simpl; try destruct s; auto; discriminate.
Qed.

Lemma SFmul_nonneg (a b : spec_float) :
  SFnonneg a -> SFnonneg b -> SF64mul a b <> S754_nan -> SFnonneg (SF64mul a b).
Proof.
  intros Ha Hb Hn. apply SFnonneg_inv in Ha. apply SFnonneg_inv in Hb.
  destruct a as [sa|sa| |sa ma ea], b as [sb|sb| |sb mb eb]; simpl in *; subst;
    try contradiction; try reflexivity; try congruence.
  unfold SF64mul, SFmul in *. apply SFnonneg_same_sign; auto.
  apply binary_round_aux_sign.
Qed.

Lemma SFsq_nonneg (a : spec_float) :
  SF64mul a a <> S754_nan -> SFnonneg (SF64mul a a).
Proof.
  intros Hn.
  destruct a as [sa|sa| |sa ma ea]; simpl in *; try congruence.
  - reflexivity.
  - destruct sa; reflexivity.
  - unfold SF64mul, SFmul in *. rewrite xorb_nilpotent in *.
    apply SFnonneg_same_sign; auto.
    apply binary_round_aux_sign.
Qed.

Lemma SFadd_nonneg (a b : spec_float) :
  SFnonneg a -> SFnonneg b -> SFnonneg (SF64add a b).
Proof.
  intros Ha Hb. apply SFnonneg_inv in Ha. apply SFnonneg_inv in Hb.
  destruct a as [sa|sa| |sa ma ea], b as [sb|sb| |sb mb eb]; simpl in *; subst;
    try contradiction; try reflexivity.
  - destruct sa, sb; reflexivity.
  - unfold SF64add, SFadd, binary_normalize, cond_Zopp.
    simpl Z.add. unfold binary_round.
    destruct (shl_align _ _ _) as [mz ez'].
    apply SFnonneg_same_sign.
    + apply binary_round_aux_not_nan. lia.
    + apply binary_round_aux_sign.
Qed.

Lemma SFmul_nan_l (a b : spec_float) : SF64mul a b <> S754_nan -> a <> S754_nan.
Proof. destruct a; simpl; congruence. Qed.

Lemma SFmul_nan_r (a b : spec_float) : SF64mul a b <> S754_nan -> b <> S754_nan.
Proof. destruct a, b; simpl; congruence. Qed.

Lemma SFadd_nan_l (a b : spec_float) : SF64add a b <> S754_nan -> a <> S754_nan.
Proof. destruct a; simpl; congruence. Qed.

Lemma SFadd_nan_r (a b : spec_float) : SF64add a b <> S754_nan -> b <> S754_nan.
Proof. destruct a, b; simpl; congruence. Qed.

Lemma SFcompare_refl (a : spec_float) : a <> S754_nan -> SFcompare a a = Some Eq.
Proof.
  destruct a as [s|s| |s m e]; simpl; intros H; try congruence.
  - destruct s; reflexivity.
  - rewrite Z.compare_refl, compare_cont_Eq, Pos.compare_refl. destruct s; reflexivity.
Qed.

(** [is_nan] recognises exactly the NaN. *)
Lemma is_nan_false (x : float) : is_nan x = false <-> Prim2SF x <> S754_nan.
Proof.
  unfold is_nan. rewrite eqb_spec. unfold SFeqb. split.
  - intros H E. rewrite E in H. discriminate.
  - intros H. now rewrite SFcompare_refl.
Qed.

Lemma is_nan_true (x : float) : is_nan x = true <-> Prim2SF x = S754_nan.
Proof.
  split.
  - intros H. destruct (Prim2SF x) eqn:E; try reflexivity;
      assert (Hf : is_nan x = false) by (apply is_nan_false; congruence); congruence.
  - intros H. destruct (is_nan x) eqn:E; [reflexivity|].
    apply is_nan_false in E. contradiction.
Qed.

Lemma nonneg_spec (x : float) : nonneg x <-> SFnonneg (Prim2SF x).
Proof. unfold nonneg, SFnonneg. rewrite leb_spec. reflexivity. Qed.

Lemma nonneg_not_nan (x : float) : nonneg x -> is_nan x = false.
Proof.
  rewrite nonneg_spec, is_nan_false. intros H E. rewrite E in H. discriminate.
Qed.

Lemma add_nonneg (a b : float) : nonneg a -> nonneg b -> nonneg (a + b)%float.
Proof. rewrite !nonneg_spec, add_spec. apply SFadd_nonneg. Qed.

Lemma mul_nonneg (a b : float) :
  nonneg a -> nonneg b -> is_nan (a * b)%float = false -> nonneg (a * b)%float.
Proof. rewrite !nonneg_spec, is_nan_false, mul_spec. apply SFmul_nonneg. Qed.

Lemma sq_nonneg (a : float) : is_nan (a * a)%float = false -> nonneg (a * a)%float.
Proof. rewrite !nonneg_spec, is_nan_false, mul_spec. apply SFsq_nonneg. Qed.

Lemma mul_not_nan (a b : float) :
  is_nan (a * b)%float = false -> is_nan a = false /\ is_nan b = false.
Proof.
  rewrite !is_nan_false, mul_spec. intros H. split.
  - now apply SFmul_nan_l in H.
  - now apply SFmul_nan_r in H.
Qed.

Lemma add_not_nan (a b : float) :
  is_nan (a + b)%float = false -> is_nan a = false /\ is_nan b = false.
Proof.
  rewrite !is_nan_false, add_spec. intros H. split.
  - now apply SFadd_nan_l in H.
  - now apply SFadd_nan_r in H.
Qed.

Lemma add_nan_l (a b : float) : is_nan a = true -> is_nan (a + b)%float = true.
Proof.
  rewrite !is_nan_true, add_spec. intros H. rewrite H. reflexivity.
Qed.

Lemma add_nan_r (a b : float) : is_nan b = true -> is_nan (a + b)%float = true.
Proof.
  rewrite !is_nan_true, add_spec. intros H. rewrite H. destruct (Prim2SF a); reflexivity.
Qed.

Lemma mul_nan_l (a b : float) : is_nan a = true -> is_nan (a * b)%float = true.
Proof.
  rewrite !is_nan_true, mul_spec. intros H. rewrite H. reflexivity.
Qed.

Lemma mul_nan_r (a b : float) : is_nan b = true -> is_nan (a * b)%float = true.
Proof.
  rewrite !is_nan_true, mul_spec. intros H. rewrite H. destruct (Prim2SF a); reflexivity.
Qed.

Lemma nan_fails (ke : float) : is_nan ke = true -> (-1e-10 <? ke)%float = false.
Proof.
  rewrite is_nan_true, ltb_spec. intros H. rewrite H. reflexivity.
Qed.

End FloatSign.

(** ** The termination monitor of [logWriting] *)

Section MonitorFacts.

Lemma count_app (p : Effect -> bool) (a b : list Effect) :
  count p (a ++ b) = (count p a + count p b)%nat.
Proof. unfold count. now rewrite filter_app, length_app. Qed.

Lemma trace_bind {A B : Type} (m : Ev A) (k : A -> Ev B) :
  trace (bind m k) =
  trace m ++ match outcome m with
             | inl a => trace (k a)
             | inr _ => []
             end.
Proof.
  destruct m as [tr [a|e]]; simpl.
  - destruct (k a); reflexivity.
  - now rewrite app_nil_r.
Qed.

Lemma outcome_bind {A B : Type} (m : Ev A) (k : A -> Ev B) :
  outcome (bind m k) =
  match outcome m with
  | inl a => outcome (k a)
  | inr e => inr e
  end.
Proof.
  destruct m as [tr [a|e]]; simpl; [destruct (k a)|]; reflexivity.
Qed.

(** The constants of the two cases stand in the order the monitor relies on. *)
Lemma atomisation_bounds :
  (-1e-10 <? 1e-6)%float = true /\ (1e-6 <? 1e6)%float = true.
Proof. split; reflexivity. Qed.

Lemma impact_bounds :
  (-1e-10 <? 1e-8)%float = true /\ (1e-8 <? 1e2)%float = true.
Proof. split; reflexivity. Qed.

End MonitorFacts.

(** [logWriting] is its body run on the energy of the cells; in drop impact
    the step is first announced on the status stream. *)
Lemma atomisation_logWriting_unfold
      (rho : float -> float) (pow : float -> nat -> float)
      (w : World) (i : Z) (dt t : float) (cells : Mesh float) :
  DropAtomisation.logWriting rho pow w i dt t cells =
  DropAtomisation.logWriting_body w i dt t
    (DropAtomisation.kinetic_energy (binary64 rho pow) DropAtomisation.dimension cells).
Proof. reflexivity. Qed.

Lemma impact_logWriting_unfold
      (rho : float -> float) (pow : float -> nat -> float)
      (w : World) (i : Z) (dt t : float) (cells : Mesh float) :
  let r := DropImpact.logWriting_body w i dt t
             (DropImpact.kinetic_energy (binary64 rho pow) cells) in
  trace (DropImpact.logWriting rho pow w i dt t cells) =
    Fprintf ferr "i %d, t %g\n" [IntArg i; DblArg t] :: trace r /\
  outcome (DropImpact.logWriting rho pow w i dt t cells) = outcome r.
Proof.
  unfold DropImpact.logWriting. rewrite trace_bind, outcome_bind. split; reflexivity.
Qed.

(** Leaves of the case analysis: a result that is no [STOP_ABORT]. *)
Ltac not_stop_abort :=
  let Ho := fresh "Ho" in
  let Hin := fresh "Hin" in
  intros [Ho Hin]; cbn in Ho, Hin; try discriminate Ho;
  repeat (destruct Hin as [Hin|Hin]; [try discriminate Hin|]);
  try contradiction.

(** C3.  At every step [i <= 10], on every rank, whatever the energy and
    whether or not the files can be opened, [logWriting] announces no
    [STOP_ABORT] and writes no checkpoint: the bounds are looked at only when
    [i > 10].  A step [i <= 10] that passes the log-writing block and the
    assertion continues, however far out of bounds its energy is. *)
Theorem no_stop_abort_up_to_step_10
        (w : World) (i : Z) (dt t ke : float) (reason : string) :
  i <= 10 ->
  ~ decides (DropAtomisation.logWriting_body w i dt t ke) (STOP_ABORT reason) /\
  ~ decides (DropImpact.logWriting_body w i dt t ke) (STOP_ABORT reason) /\
  count is_dump (trace (DropAtomisation.logWriting_body w i dt t ke)) = 0%nat /\
  count is_dump (trace (DropImpact.logWriting_body w i dt t ke)) = 0%nat /\
  count (is_reason_line "log" reason)
        (trace (DropAtomisation.logWriting_body w i dt t ke)) = 0%nat /\
  count (is_reason_line "log" reason)
        (trace (DropImpact.logWriting_body w i dt t ke)) = 0%nat /\
  (pid w <> 0 \/ can_open w 0%nat DropAtomisation.logFile = true ->
   (-1e-10 <? ke)%float = true ->
   decides (DropAtomisation.logWriting_body w i dt t ke) CONTINUE) /\
  (pid w <> 0 \/ can_open w 0%nat "log" = true ->
   (-1e-10 <? ke)%float = true ->
   decides (DropImpact.logWriting_body w i dt t ke) CONTINUE).
Proof.
  intros Hi.
  assert (Hi10 : (10 <? i) = false) by (apply Z.ltb_ge; lia).
  unfold DropAtomisation.logWriting_body, DropImpact.logWriting_body, fopen.
  rewrite Hi10.
  destruct (pid w =? 0) eqn:Hp, (can_open w 0%nat "log"), (can_open w 1%nat "log"),
    (can_open w 0%nat DropAtomisation.logFile), (i =? 0), (-1e-10 <? ke)%float;
    (repeat apply conj;
     [ not_stop_abort | not_stop_abort | reflexivity | reflexivity
     | reflexivity | reflexivity
     | intros [Hn|Hn] Ha;
       first [reflexivity | discriminate Ha | discriminate Hn
             | apply Z.eqb_eq in Hp; contradiction]
     | intros [Hn|Hn] Ha;
       first [reflexivity | discriminate Ha | discriminate Hn
             | apply Z.eqb_eq in Hp; contradiction] ]).
Qed.

(** At step 10 the energies 2e6 and 1e-9, both out of bounds, stop nothing. *)
Lemma no_stop_abort_up_to_step_10_witness :
  ~ decides (DropAtomisation.logWriting_body rank0 10 0.1 1.1 2e6)
            (STOP_ABORT DropAtomisation.blew_up) /\
  ~ decides (DropImpact.logWriting_body rank0 10 0.1 1.1 1e-9)
            (STOP_ABORT DropImpact.too_small) /\
  decides (DropAtomisation.logWriting_body rank0 10 0.1 1.1 2e6) CONTINUE /\
  decides (DropImpact.logWriting_body rank0 10 0.1 1.1 1e-9) CONTINUE.
Proof.
  pose proof (no_stop_abort_up_to_step_10 rank0 10 0.1 1.1 2e6 DropAtomisation.blew_up)
    as Ha.
  pose proof (no_stop_abort_up_to_step_10 rank0 10 0.1 1.1 1e-9 DropImpact.too_small)
    as Hi.
  destruct Ha as (A1 & _ & _ & _ & _ & _ & A2 & _); [discriminate|].
  destruct Hi as (_ & I1 & _ & _ & _ & _ & _ & I2); [discriminate|].
  exact (conj A1 (conj I1 (conj (A2 (or_intror eq_refl) eq_refl)
                                (I2 (or_intror eq_refl) eq_refl)))).
Defined.

(** C2, as the code has it.  At any step [i] whatsoever, when the energy is
    at or below [-1e-10] (or is a NaN, for which [ke > -1e-10] is false as
    well), a worker that reaches the check leaves [logWriting] through the
    failed assertion [ke > -1e-10]; rank 0 reaches it when its run log has
    been opened, every other rank always does.  Whether or not the check is
    reached, such a step never continues, never announces a [STOP_ABORT] and
    never writes a checkpoint. *)
Theorem assertion_not_gated_by_step (w : World) (i : Z) (dt t ke : float) :
  (ke <=? -1e-10)%float = true \/ is_nan ke = true ->
  (pid w <> 0 \/ can_open w 0%nat DropAtomisation.logFile = true ->
   outcome (DropAtomisation.logWriting_body w i dt t ke) =
     inr (AssertionFailed "ke > -1e-10")) /\
  (pid w <> 0 \/ can_open w 0%nat "log" = true ->
   outcome (DropImpact.logWriting_body w i dt t ke) =
     inr (AssertionFailed "ke > -1e-10")) /\
  (forall reason,
      ~ decides (DropAtomisation.logWriting_body w i dt t ke) (STOP_ABORT reason)) /\
  (forall reason,
      ~ decides (DropImpact.logWriting_body w i dt t ke) (STOP_ABORT reason)) /\
  ~ decides (DropAtomisation.logWriting_body w i dt t ke) CONTINUE /\
  ~ decides (DropImpact.logWriting_body w i dt t ke) CONTINUE /\
  count is_dump (trace (DropAtomisation.logWriting_body w i dt t ke)) = 0%nat /\
  count is_dump (trace (DropImpact.logWriting_body w i dt t ke)) = 0%nat.
Proof.
  intros Hke.
  assert (Ha : (-1e-10 <? ke)%float = false).
  { destruct Hke as [Hke|Hke]; [now apply leb_not_ltb | now apply nan_fails]. }
  unfold DropAtomisation.logWriting_body, DropImpact.logWriting_body, fopen.
  rewrite Ha.
  destruct (pid w =? 0) eqn:Hp, (can_open w 0%nat "log"),
    (can_open w 0%nat DropAtomisation.logFile), (i =? 0);
    (repeat apply conj;
     [ intros [Hn|Hn];
       first [reflexivity | apply Z.eqb_eq in Hp; contradiction | discriminate Hn]
     | intros [Hn|Hn];
       first [reflexivity | apply Z.eqb_eq in Hp; contradiction | discriminate Hn]
     | intros reason; not_stop_abort
     | intros reason; not_stop_abort
     | cbn; discriminate
     | cbn; discriminate
     | reflexivity
     | reflexivity ]).
Qed.

(** The assertion fails at step 0 on rank 0 for the energy -1, at step 25 on
    rank 1 for the energy -1e-10 itself, and at step 11 for a NaN. *)
Lemma assertion_not_gated_by_step_witness :
  outcome (DropAtomisation.logWriting_body rank0 0 0.1 0 (-1)) =
    inr (AssertionFailed "ke > -1e-10") /\
  outcome (DropImpact.logWriting_body rank1 25 0.1 2.5 (-1e-10)) =
    inr (AssertionFailed "ke > -1e-10") /\
  outcome (DropImpact.logWriting_body rank0 11 0.1 1.1 nan) =
    inr (AssertionFailed "ke > -1e-10").
Proof.
  refine (conj _ (conj _ _)).
  - apply (assertion_not_gated_by_step rank0 0 0.1 0 (-1)).
    + left; reflexivity.
    + right; reflexivity.
  - apply (assertion_not_gated_by_step rank1 25 0.1 2.5 (-1e-10)).
    + left; reflexivity.
    + left; discriminate.
  - apply (assertion_not_gated_by_step rank0 11 0.1 1.1 nan).
    + right; reflexivity.
    + right; reflexivity.
Defined.

(** C2 as stated fails when the run log cannot be opened: rank 0 then returns
    1 before the assertion is evaluated, also for an energy of [-1]. *)
Lemma unopened_log_returns_before_assertion :
  (-1 <=? -1e-10)%float = true /\
  outcome (DropAtomisation.logWriting_body rank0_no_files 0 0.1 0 (-1))
    = inr (Return 1) /\
  outcome (DropImpact.logWriting_body rank0_no_files 0 0.1 0 (-1))
    = inr (Return 1).
Proof. repeat split. Qed.

(** Leaves of the case analysis: from a [STOP_ABORT] announcement to the
    reason that was announced. *)
Ltac stop_abort_reason :=
  let Ho := fresh "Ho" in
  let Hin := fresh "Hin" in
  intros [Ho Hin]; cbn in Ho, Hin; try discriminate Ho;
  repeat (destruct Hin as [Hin|Hin];
          [first [discriminate Hin | injection Hin as <-]|]);
  try contradiction.

(** C4, as the code has it.  Whenever [logWriting] announces a [STOP_ABORT],
    its trace ends with: the reason on the status stream, the file [log]
    opened in append mode, the reason written to it, flush, close, one
    checkpoint of the restart file; then it returns 1.  The reason is written
    to [log] exactly once and exactly one checkpoint is written.  In drop
    atomisation [log] is a file of its own, the run log being
    [log3D-scalar.dat]; in drop impact [log] is the run log itself, which has
    received the record of the step just before. *)
Theorem stop_abort_effects (w : World) (i : Z) (dt t ke : float) (reason : string) :
  (decides (DropAtomisation.logWriting_body w i dt t ke) (STOP_ABORT reason) ->
   let tr := trace (DropAtomisation.logWriting_body w i dt t ke) in
   (exists pre,
       tr = pre ++ [Fprintf ferr "%s" [StrArg reason];
                    Fopen "log" "a" true;
                    Fprintf (file "log") "%s" [StrArg reason];
                    Fflush (file "log");
                    Fclose (file "log");
                    Dump DropAtomisation.dumpFile]) /\
   count (is_reason_line "log" reason) tr = 1%nat /\
   count is_dump tr = 1%nat /\
   count (is_open "log") tr = 1%nat /\
   written_with "%s" tr = ["log"] /\
   written_with "%d %g %g %g\n" tr = [DropAtomisation.logFile] /\
   outcome (DropAtomisation.logWriting_body w i dt t ke) = inr (Return 1)) /\
  (decides (DropImpact.logWriting_body w i dt t ke) (STOP_ABORT reason) ->
   let tr := trace (DropImpact.logWriting_body w i dt t ke) in
   (exists pre,
       tr = pre ++ [Fprintf ferr "%s" [StrArg reason];
                    Fopen "log" "a" true;
                    Fprintf (file "log") "%s" [StrArg reason];
                    Fflush (file "log");
                    Fclose (file "log");
                    Dump DropImpact.dumpFile]) /\
   count (is_reason_line "log" reason) tr = 1%nat /\
   count is_dump tr = 1%nat /\
   count (is_open "log") tr = 2%nat /\
   written_with "%s" tr = ["log"] /\
   written_with "%d %g %g %g\n" tr = ["log"] /\
   outcome (DropImpact.logWriting_body w i dt t ke) = inr (Return 1)) /\
  DropAtomisation.logFile <> "log".
Proof.
  unfold DropAtomisation.logWriting_body, DropImpact.logWriting_body, fopen.
  refine (conj _ (conj _ _)); [| |discriminate].
  - destruct (pid w =? 0), (can_open w 1%nat "log"),
      (can_open w 0%nat DropAtomisation.logFile),
      (i =? 0), (10 <? i), (-1e-10 <? ke)%float, (1e6 <? ke)%float, (ke <? 1e-6)%float;
      stop_abort_reason;
      (cbn; refine (conj _ (conj _ (conj _ (conj _ (conj _ (conj _ _))))));
       [first [eexists (_ :: _ :: _ :: _ :: _ :: nil); reflexivity
              |eexists (_ :: _ :: _ :: _ :: _ :: _ :: _ :: _ :: _ :: nil); reflexivity]
       | reflexivity ..]).
  - destruct (pid w =? 0), (can_open w 0%nat "log"), (can_open w 1%nat "log"),
      (i =? 0), (10 <? i), (-1e-10 <? ke)%float, (1e2 <? ke)%float, (ke <? 1e-8)%float;
      stop_abort_reason;
      (cbn; refine (conj _ (conj _ (conj _ (conj _ (conj _ (conj _ _))))));
       [first [eexists (_ :: _ :: _ :: _ :: _ :: nil); reflexivity
              |eexists (_ :: _ :: _ :: _ :: _ :: _ :: _ :: _ :: _ :: nil); reflexivity]
       | reflexivity ..]).
Qed.

(** The files written by a stop at step 11, and its single checkpoint. *)
Lemma stop_abort_effects_witness :
  written_with "%s" (trace (DropAtomisation.logWriting_body rank0 11 0.1 1.1 2e6))
    = ["log"] /\
  written_with "%d %g %g %g\n"
               (trace (DropAtomisation.logWriting_body rank0 11 0.1 1.1 2e6))
    = ["log3D-scalar.dat"] /\
  count is_dump (trace (DropImpact.logWriting_body rank0 11 0.1 1.1 1e-9)) = 1%nat.
Proof.
  assert (Ha : decides (DropAtomisation.logWriting_body rank0 11 0.1 1.1 2e6)
                       (STOP_ABORT DropAtomisation.blew_up)).
  { split; [reflexivity | cbn; tauto]. }
  assert (Hi : decides (DropImpact.logWriting_body rank0 11 0.1 1.1 1e-9)
                       (STOP_ABORT DropImpact.too_small)).
  { split; [reflexivity | cbn; tauto]. }
  pose proof (proj1 (stop_abort_effects rank0 11 0.1 1.1 2e6 DropAtomisation.blew_up) Ha)
    as (_ & _ & _ & _ & H1 & H2 & _).
  pose proof (proj1 (proj2 (stop_abort_effects rank0 11 0.1 1.1 1e-9 DropImpact.too_small)) Hi)
    as (_ & _ & H3 & _).
  exact (conj H1 (conj H2 H3)).
Defined.

(** C4 as stated fails in drop impact: the abort reason goes to the file that
    holds the per-step records, not to a file of its own. *)
Lemma impact_reason_goes_to_run_log :
  decides (DropImpact.logWriting_body rank0 11 0.1 1.1 2e6)
          (STOP_ABORT DropImpact.blew_up) /\
  written_with "%s" (trace (DropImpact.logWriting_body rank0 11 0.1 1.1 2e6))
    = written_with "%d %g %g %g\n"
                   (trace (DropImpact.logWriting_body rank0 11 0.1 1.1 2e6)).
Proof.
  split; [split; [reflexivity | cbn; tauto] | reflexivity].
Qed.

(** C9, as the code has it.  When rank 0 cannot open the run log, the callback
    records the failed [fopen], writes "Error opening log file" to the status
    stream and returns 1: no record is written, the assertion is not
    evaluated, no [STOP_ABORT] is announced and no checkpoint is written.  The
    value returned, 1, is the one a [STOP_ABORT] returns. *)
Theorem log_open_failure_returns_1 (w : World) (i : Z) (dt t ke : float) :
  pid w = 0 ->
  (can_open w 0%nat DropAtomisation.logFile = false ->
   DropAtomisation.logWriting_body w i dt t ke =
     ([Fopen DropAtomisation.logFile (if i =? 0 then "w" else "a") false;
       Fprintf ferr "Error opening log file\n" []],
      inr (Return 1))) /\
  (can_open w 0%nat "log" = false ->
   DropImpact.logWriting_body w i dt t ke =
     ([Fopen "log" (if i =? 0 then "w" else "a") false;
       Fprintf ferr "Error opening log file\n" []],
      inr (Return 1))) /\
  (forall reason,
      decides (DropAtomisation.logWriting_body w i dt t ke) (STOP_ABORT reason) ->
      can_open w 0%nat DropAtomisation.logFile = true /\
      can_open w 1%nat "log" = true /\
      outcome (DropAtomisation.logWriting_body w i dt t ke) = inr (Return 1)) /\
  (forall reason,
      decides (DropImpact.logWriting_body w i dt t ke) (STOP_ABORT reason) ->
      can_open w 0%nat "log" = true /\
      can_open w 1%nat "log" = true /\
      outcome (DropImpact.logWriting_body w i dt t ke) = inr (Return 1)).
Proof.
  intros Hp. apply Z.eqb_eq in Hp.
  unfold DropAtomisation.logWriting_body, DropImpact.logWriting_body, fopen.
  rewrite Hp.
  refine (conj _ (conj _ (conj _ _))).
  - intros ->. reflexivity.
  - intros ->. reflexivity.
  - intros reason.
    destruct (can_open w 1%nat "log"), (can_open w 0%nat DropAtomisation.logFile),
      (i =? 0), (10 <? i), (-1e-10 <? ke)%float, (1e6 <? ke)%float, (ke <? 1e-6)%float;
      stop_abort_reason; repeat split.
  - intros reason.
    destruct (can_open w 0%nat "log"), (can_open w 1%nat "log"),
      (i =? 0), (10 <? i), (-1e-10 <? ke)%float, (1e2 <? ke)%float, (ke <? 1e-8)%float;
      stop_abort_reason; repeat split.
Qed.

(** The whole result of a step on rank 0 when the run log cannot be opened. *)
Lemma log_open_failure_returns_1_witness :
  DropAtomisation.logWriting_body rank0_no_files 11 0.1 1.1 2e6 =
    ([Fopen "log3D-scalar.dat" "a" false; Fprintf ferr "Error opening log file\n" []],
     inr (Return 1)) /\
  DropImpact.logWriting_body rank0_no_files 0 0.1 0 1 =
    ([Fopen "log" "w" false; Fprintf ferr "Error opening log file\n" []],
     inr (Return 1)).
Proof.
  split.
  - apply (log_open_failure_returns_1 rank0_no_files 11 0.1 1.1 2e6 eq_refl).
    reflexivity.
  - apply (log_open_failure_returns_1 rank0_no_files 0 0.1 0 1 eq_refl).
    reflexivity.
Defined.

(** C9 as stated fails: the exit taken when the run log cannot be opened is
    the very exit of a graceful [STOP_ABORT], [return 1]. *)
Lemma log_open_failure_exits_like_stop_abort :
  can_open rank0_no_files 0%nat DropAtomisation.logFile = false /\
  decides (DropAtomisation.logWriting_body rank0 11 0.1 1.1 2e6)
          (STOP_ABORT DropAtomisation.blew_up) /\
  outcome (DropAtomisation.logWriting_body rank0_no_files 11 0.1 1.1 2e6) =
  outcome (DropAtomisation.logWriting_body rank0 11 0.1 1.1 2e6).
Proof.
  refine (conj eq_refl (conj _ eq_refl)).
  split; [reflexivity | cbn; tauto].
Qed.

(** ** The run log *)

Section RunLog.

Variable body : World -> Z -> float -> float -> float -> Ev unit.
Variable w : World.
Variable data : Z -> StepData.
Variable header record : Effect -> bool.

Hypothesis header_at_step_0 :
  forall i dt t ke,
    count header (trace (body w i dt t ke)) = if i =? 0 then 1%nat else 0%nat.

Hypothesis one_record_per_step :
  forall i dt t ke, count record (trace (body w i dt t ke)) = 1%nat.

Lemma run_unfold (n : nat) (i : Z) :
  run body w data (S n) i =
  bind (body w i (step_dt (data i)) (step_t (data i)) (step_ke (data i)))
       (fun _ => run body w data n (i + 1)).
Proof. reflexivity. Qed.

Lemma run_no_header_later (n : nat) :
  forall i, 0 < i -> count header (trace (run body w data n i)) = 0%nat.
Proof.
  induction n as [|n IH]; intros i Hi; [reflexivity|].
  rewrite run_unfold, trace_bind, count_app, header_at_step_0.
  replace (i =? 0) with false by (symmetry; apply Z.eqb_neq; lia).
  destruct (outcome _); [apply IH; lia | reflexivity].
Qed.

Lemma run_header_once (n : nat) :
  count header (trace (run body w data (S n) 0)) = 1%nat.
Proof.
  rewrite run_unfold, trace_bind, count_app, header_at_step_0. simpl.
  destruct (outcome _); [now rewrite run_no_header_later | reflexivity].
Qed.

Lemma run_records (n : nat) :
  forall i,
    outcome (run body w data n i) = inl tt ->
    count record (trace (run body w data n i)) = n.
Proof.
  induction n as [|n IH]; intros i Ho; [reflexivity|].
  rewrite run_unfold in Ho |- *.
  rewrite outcome_bind in Ho. rewrite trace_bind, count_app, one_record_per_step.
  destruct (outcome (body w i _ _ _)); [|discriminate].
  now rewrite IH.
Qed.

End RunLog.

(** C7, as the code has it.  On rank 0 the run log is opened first, in mode
    [w] at step 0 and in mode [a] at every other step.  When it opens, the
    lines the step writes to it are: at step 0 only, the parameter header and
    the line of column names; then one record [%d %g %g %g] of [i], [dt], [t]
    and [ke]; in drop impact, whose run log is the file [log], the abort
    reason follows when the step stops.  The header is
    [Level %d, Oh %2.1e, We %2.1e, Oha %2.1e, De %2.1e, Ec %2.1e] in drop
    atomisation and [Level %d, Oh %2.1e, Oha %2.1e] in drop impact.  Over a
    run that starts at step 0 the header is written exactly once, and a run of
    [n] completed steps writes [n] records. *)
Theorem run_log_lines (w : World) (i : Z) (dt t ke : float) :
  pid w = 0 ->
  let record := ("%d %g %g %g\n", [IntArg i; DblArg dt; DblArg t; DblArg ke]) in
  let ta := trace (DropAtomisation.logWriting_body w i dt t ke) in
  let ti := trace (DropImpact.logWriting_body w i dt t ke) in
  (exists rest,
      ta = Fopen DropAtomisation.logFile (if i =? 0 then "w" else "a")
                 (can_open w 0%nat DropAtomisation.logFile) :: rest) /\
  (exists rest,
      ti = Fopen "log" (if i =? 0 then "w" else "a") (can_open w 0%nat "log") :: rest) /\
  (can_open w 0%nat DropAtomisation.logFile = true ->
   lines_of DropAtomisation.logFile ta =
     (if i =? 0
      then [("Level %d, Oh %2.1e, We %2.1e, Oha %2.1e, De %2.1e, Ec %2.1e\n",
             [IntArg DropAtomisation.MAXlevel; DblArg DropAtomisation.Oh;
              DblArg DropAtomisation.We; DblArg DropAtomisation.Oha;
              DblArg DropAtomisation.De; DblArg DropAtomisation.Ec]);
            ("i dt t ke rM\n", [])]
      else []) ++ [record]) /\
  (can_open w 0%nat "log" = true ->
   exists tail,
     lines_of "log" ti =
       (if i =? 0
        then [("Level %d, Oh %2.1e, Oha %2.1e\n",
               [IntArg DropImpact.MAXlevel; DblArg DropImpact.Oh;
                DblArg DropImpact.Oha]);
              ("i dt t ke rM\n", [])]
        else []) ++ [record] ++ tail /\
     (tail = [] \/
      exists reason,
        tail = [("%s", [StrArg reason])] /\
        decides (DropImpact.logWriting_body w i dt t ke) (STOP_ABORT reason))) /\
  (can_open w 0%nat DropAtomisation.logFile = true ->
   forall data n,
     count (is_line DropAtomisation.logFile DropAtomisation.header_fmt)
           (trace (run DropAtomisation.logWriting_body w data (S n) 0)) = 1%nat /\
     (outcome (run DropAtomisation.logWriting_body w data n 0) = inl tt ->
      count (is_line DropAtomisation.logFile "%d %g %g %g\n")
            (trace (run DropAtomisation.logWriting_body w data n 0)) = n)) /\
  (can_open w 0%nat "log" = true ->
   forall data n,
     count (is_line "log" DropImpact.header_fmt)
           (trace (run DropImpact.logWriting_body w data (S n) 0)) = 1%nat /\
     (outcome (run DropImpact.logWriting_body w data n 0) = inl tt ->
      count (is_line "log" "%d %g %g %g\n")
            (trace (run DropImpact.logWriting_body w data n 0)) = n)).
Proof.
  intros Hp record ta ti. subst record ta ti. apply Z.eqb_eq in Hp.
  refine (conj _ (conj _ (conj _ (conj _ (conj _ _))))).
  - unfold DropAtomisation.logWriting_body, fopen. rewrite Hp.
    destruct (can_open w 1%nat "log"), (can_open w 0%nat DropAtomisation.logFile),
      (i =? 0), (10 <? i), (-1e-10 <? ke)%float, (1e6 <? ke)%float, (ke <? 1e-6)%float;
      eexists; reflexivity.
  - unfold DropImpact.logWriting_body, fopen. rewrite Hp.
    destruct (can_open w 0%nat "log"), (can_open w 1%nat "log"),
      (i =? 0), (10 <? i), (-1e-10 <? ke)%float, (1e2 <? ke)%float, (ke <? 1e-8)%float;
      eexists; reflexivity.
  - intros Hl. unfold DropAtomisation.logWriting_body, fopen. rewrite Hp, Hl.
    destruct (can_open w 1%nat "log"),
      (i =? 0), (10 <? i), (-1e-10 <? ke)%float, (1e6 <? ke)%float, (ke <? 1e-6)%float;
      reflexivity.
  - intros Hl. unfold DropImpact.logWriting_body, fopen. rewrite Hp, Hl.
    destruct (can_open w 1%nat "log"),
      (i =? 0), (10 <? i), (-1e-10 <? ke)%float, (1e2 <? ke)%float, (ke <? 1e-8)%float;
      first [ exists []; split; [reflexivity | left; reflexivity]
            | eexists [_]; split;
              [reflexivity
              | right; eexists; split;
                [reflexivity | split; [reflexivity | cbn; tauto]]] ].
  - intros Hl data n. split.
    + apply run_header_once. intros j dt' t' ke'.
      unfold DropAtomisation.logWriting_body, fopen. rewrite Hp, Hl.
      destruct (can_open w 1%nat "log"),
        (j =? 0), (10 <? j), (-1e-10 <? ke')%float, (1e6 <? ke')%float,
        (ke' <? 1e-6)%float; reflexivity.
    + apply run_records. intros j dt' t' ke'.
      unfold DropAtomisation.logWriting_body, fopen. rewrite Hp, Hl.
      destruct (can_open w 1%nat "log"),
        (j =? 0), (10 <? j), (-1e-10 <? ke')%float, (1e6 <? ke')%float,
        (ke' <? 1e-6)%float; reflexivity.
  - intros Hl data n. split.
    + apply run_header_once. intros j dt' t' ke'.
      unfold DropImpact.logWriting_body, fopen. rewrite Hp, Hl.
      destruct (can_open w 1%nat "log"),
        (j =? 0), (10 <? j), (-1e-10 <? ke')%float, (1e2 <? ke')%float,
        (ke' <? 1e-8)%float; reflexivity.
    + apply run_records. intros j dt' t' ke'.
      unfold DropImpact.logWriting_body, fopen. rewrite Hp, Hl.
      destruct (can_open w 1%nat "log"),
        (j =? 0), (10 <? j), (-1e-10 <? ke')%float, (1e2 <? ke')%float,
        (ke' <? 1e-8)%float; reflexivity.
Qed.

(** The lines of the run log of drop atomisation after step 0 and after
    step 5. *)
Lemma run_log_lines_witness :
  lines_of "log3D-scalar.dat" (trace (DropAtomisation.logWriting_body rank0 0 0.1 0 1)) =
    [("Level %d, Oh %2.1e, We %2.1e, Oha %2.1e, De %2.1e, Ec %2.1e\n",
      [IntArg 7; DblArg 3e-3; DblArg 15000; DblArg (0.018 * 3e-3); DblArg 0; DblArg 0]);
     ("i dt t ke rM\n", []);
     ("%d %g %g %g\n", [IntArg 0; DblArg 0.1; DblArg 0; DblArg 1])] /\
  lines_of "log3D-scalar.dat" (trace (DropAtomisation.logWriting_body rank0 5 0.1 0.5 1)) =
    [("%d %g %g %g\n", [IntArg 5; DblArg 0.1; DblArg 0.5; DblArg 1])].
Proof.
  split.
  - apply (run_log_lines rank0 0 0.1 0 1 eq_refl). reflexivity.
  - apply (run_log_lines rank0 5 0.1 0.5 1 eq_refl). reflexivity.
Defined.

(** C7 as stated fails in drop impact: the header written at step 0 names
    only the level and the two Ohnesorge numbers, so no line of the stated
    format reaches the run log. *)
Lemma impact_header_has_three_fields :
  lines_of "log" (trace (DropImpact.logWriting_body rank0 0 0.1 0 1)) =
    [("Level %d, Oh %2.1e, Oha %2.1e\n",
      [IntArg 6; DblArg 1e-2; DblArg (1e-2 * 1e-2)]);
     ("i dt t ke rM\n", []);
     ("%d %g %g %g\n", [IntArg 0; DblArg 0.1; DblArg 0; DblArg 1])] /\
  count (is_line "log" "Level %d, Oh %2.1e, We %2.1e, Oha %2.1e, De %2.1e, Ec %2.1e\n")
        (trace (DropImpact.logWriting_body rank0 0 0.1 0 1)) = 0%nat.
Proof. split; reflexivity. Qed.

(** ** Mesh adaptation *)

(** C8, as the code has it.  At every step, with no condition on [i] or [t],
    [adapt] recomputes the curvature [KAPPA] from the volume fraction [f] and
    then calls [adapt_wavelet] once, with the maximum level of the case and 4
    as last argument.  Drop atomisation lists [f], [KAPPA], [u.x], [u.y] (and
    [u.z] in three dimensions) with tolerances 1e-2, 1e-4 and 1e-2 for each
    velocity component; drop impact lists [f], [u.x], [u.y], [KAPPA] with
    tolerances 1e-3, 1e-2, 1e-2, 1e-6. *)
Theorem adapt_every_step (i : Z) :
  DropAtomisation.adapt DropAtomisation.dimension i =
    ([Curvature s_f s_KAPPA;
      AdaptWavelet [s_f; s_KAPPA; s_u_x; s_u_y; s_u_z]
                   [1e-2; 1e-4; 1e-2; 1e-2; 1e-2]%float 7 4],
     inl tt) /\
  DropAtomisation.adapt 2 i =
    ([Curvature s_f s_KAPPA;
      AdaptWavelet [s_f; s_KAPPA; s_u_x; s_u_y]
                   [1e-2; 1e-4; 1e-2; 1e-2]%float 7 4],
     inl tt) /\
  DropImpact.adapt i =
    ([Curvature s_f s_KAPPA;
      AdaptWavelet [s_f; s_u_x; s_u_y; s_KAPPA]
                   [1e-3; 1e-2; 1e-2; 1e-6]%float 6 4],
     inl tt) /\
  DropAtomisation.MAXlevel = 7 /\
  DropImpact.MAXlevel = 6.
Proof. repeat split. Qed.

(** C8 as stated fails in drop impact: the curvature is the last field of the
    list, after the velocity components, not the second. *)
Lemma impact_adapt_lists_curvature_last :
  ~ exists velocity max,
      trace (DropImpact.adapt 0) =
      [Curvature s_f s_KAPPA;
       AdaptWavelet (s_f :: s_KAPPA :: velocity) max DropImpact.MAXlevel 4].
Proof.
  intros (velocity & max & H). cbn in H. discriminate H.
Qed.

(** ** The kinetic energy in exact arithmetic *)

Section ExactEnergy.

Variable density : R -> R.

Lemma fold_sum (g : Cell R -> R) (cells : list (Cell R)) :
  forall acc,
    fold_left (fun ke c => (ke + g c)%R) cells acc = (acc + total g cells)%R.
Proof.
  induction cells as [|c cells IH]; intros acc; simpl.
  - ring.
  - rewrite IH. ring.
Qed.

Lemma total_ext (g h : Cell R -> R) (cells : list (Cell R)) :
  (forall c, g c = h c) -> total g cells = total h cells.
Proof.
  intros E. induction cells as [|c cells IH]; simpl; [reflexivity|].
  now rewrite E, IH.
Qed.

Lemma total_app (g : Cell R -> R) (a b : list (Cell R)) :
  total g (a ++ b) = (total g a + total g b)%R.
Proof.
  induction a as [|c a IH]; simpl; [ring|]. rewrite IH. ring.
Qed.

Lemma total_permutation (g : Cell R -> R) (cells cells' : list (Cell R)) :
  Permutation cells cells' -> total g cells = total g cells'.
Proof.
  induction 1; simpl; lra.
Qed.

(** In exact arithmetic the reduction is the sum over all cells of the mesh,
    however the cells are split among the workers. *)
Lemma foreach_sum_exact (term g : Cell R -> R) (mesh : Mesh R) :
  (forall c, term c = g c) ->
  foreach_sum (exact density) term mesh = total g (cells_of mesh).
Proof.
  intros E. induction mesh as [cells|a IHa b IHb].
  - change (fold_left (fun ke c => (ke + term c)%R) cells 0%R = total g cells).
    rewrite fold_sum, (total_ext _ _ cells E). ring.
  - change (foreach_sum (exact density) term a + foreach_sum (exact density) term b
            = total g (cells_of a ++ cells_of b))%R.
    rewrite IHa, IHb, total_app. reflexivity.
Qed.

Lemma atomisation_term_exact (d : nat) (c : Cell R) :
  DropAtomisation.ke_term (exact density) d c
  = cell_energy density d (measure_cartesian d) c.
Proof.
  unfold DropAtomisation.ke_term, cell_energy, speed2, measure_cartesian, sq.
  simpl. destruct (Nat.eqb d 3); ring.
Qed.

Lemma impact_term_exact (c : Cell R) :
  DropImpact.ke_term (exact density) c
  = cell_energy density 2 measure_axisymmetric c.
Proof.
  unfold DropImpact.ke_term, cell_energy, speed2, measure_axisymmetric, sq.
  simpl. ring.
Qed.

Lemma atomisation_energy_exact (d : nat) (mesh : Mesh R) :
  DropAtomisation.kinetic_energy (exact density) d mesh
  = total (cell_energy density d (measure_cartesian d)) (cells_of mesh).
Proof. apply foreach_sum_exact, atomisation_term_exact. Qed.

Lemma impact_energy_exact (mesh : Mesh R) :
  DropImpact.kinetic_energy (exact density) mesh
  = total (cell_energy density 2 measure_axisymmetric) (cells_of mesh).
Proof. apply foreach_sum_exact, impact_term_exact. Qed.

End ExactEnergy.

(** The addition of doubles is commutative; it is not associative. *)
Lemma SFadd_comm (a b : spec_float) : SF64add a b = SF64add b a.
Proof.
  unfold SF64add, SFadd.
  destruct a as [sa|sa| |sa ma ea], b as [sb|sb| |sb mb eb]; try reflexivity.
  - destruct sa, sb; reflexivity.
  - destruct sa, sb; reflexivity.
  - rewrite (Z.min_comm eb ea).
    rewrite (Z.add_comm (cond_Zopp sb _)). reflexivity.
Qed.

Lemma float_add_comm (a b : float) : (a + b)%float = (b + a)%float.
Proof.
  apply Prim2SF_inj. rewrite !add_spec. apply SFadd_comm.
Qed.

(** C5, as the code has it.  Every worker accumulates, from 0 and in the
    order in which it visits its own cells, the terms
    [(0.5 * rho(f) * |u|^2) * pow(Delta, dimension)] in drop atomisation and
    [(2 * pi * y) * (0.5 * rho(f) * |u|^2) * sq(Delta)] in drop impact, and
    the reduction adds the partial sums of the workers; all of it in the
    arithmetic of doubles.  Read in exact arithmetic that value is the sum
    over all cells of the mesh of [0.5 * density * |velocity|^2 * measure],
    with measure [Delta^d] in drop atomisation ([d] velocity components, [d]
    being 2 or 3) and [2 pi y Delta^2] in drop impact, and it is the same
    for every order in which the cells are visited and every way of
    splitting them among workers.  In doubles the value stays the same when
    the partial sums of two groups of workers are added in the other
    order. *)
Theorem kinetic_energy_is_cell_sum
        (density : R -> R) (d : nat) (mesh mesh' : Mesh R)
        (rho : float -> float) (pow : float -> nat -> float)
        (visited : list (Cell float)) (next : Cell float) (a b : Mesh float) :
  Permutation (cells_of mesh) (cells_of mesh') ->
  DropAtomisation.kinetic_energy (exact density) d mesh
    = total (cell_energy density d (measure_cartesian d)) (cells_of mesh) /\
  DropImpact.kinetic_energy (exact density) mesh
    = total (cell_energy density 2 measure_axisymmetric) (cells_of mesh) /\
  DropAtomisation.kinetic_energy (exact density) d mesh'
    = DropAtomisation.kinetic_energy (exact density) d mesh /\
  DropImpact.kinetic_energy (exact density) mesh'
    = DropImpact.kinetic_energy (exact density) mesh /\
  DropAtomisation.kinetic_energy (binary64 rho pow) d (Worker []) = 0%float /\
  DropImpact.kinetic_energy (binary64 rho pow) (Worker []) = 0%float /\
  DropAtomisation.kinetic_energy (binary64 rho pow) d (Worker (visited ++ [next]))
    = (DropAtomisation.kinetic_energy (binary64 rho pow) d (Worker visited)
       + DropAtomisation.ke_term (binary64 rho pow) d next)%float /\
  DropImpact.kinetic_energy (binary64 rho pow) (Worker (visited ++ [next]))
    = (DropImpact.kinetic_energy (binary64 rho pow) (Worker visited)
       + DropImpact.ke_term (binary64 rho pow) next)%float /\
  DropAtomisation.kinetic_energy (binary64 rho pow) d (Combine a b)
    = (DropAtomisation.kinetic_energy (binary64 rho pow) d a
       + DropAtomisation.kinetic_energy (binary64 rho pow) d b)%float /\
  DropImpact.kinetic_energy (binary64 rho pow) (Combine a b)
    = (DropImpact.kinetic_energy (binary64 rho pow) a
       + DropImpact.kinetic_energy (binary64 rho pow) b)%float /\
  DropAtomisation.kinetic_energy (binary64 rho pow) d (Combine b a)
    = DropAtomisation.kinetic_energy (binary64 rho pow) d (Combine a b) /\
  DropImpact.kinetic_energy (binary64 rho pow) (Combine b a)
    = DropImpact.kinetic_energy (binary64 rho pow) (Combine a b).
Proof.
  intros HP.
  refine (conj _ (conj _ (conj _ (conj _ (conj eq_refl (conj eq_refl
           (conj _ (conj _ (conj eq_refl (conj eq_refl
           (conj (float_add_comm _ _) (float_add_comm _ _))))))))))));
    [apply atomisation_energy_exact | apply impact_energy_exact | | | | ].
  - rewrite !atomisation_energy_exact. symmetry. now apply total_permutation.
  - rewrite !impact_energy_exact. symmetry. now apply total_permutation.
  - unfold DropAtomisation.kinetic_energy. simpl. unfold local_sum.
    now rewrite fold_left_app.
  - unfold DropImpact.kinetic_energy. simpl. unfold local_sum.
    now rewrite fold_left_app.
Qed.

(** Two cells on one worker and the same cells, in the other order, on two
    workers, in exact arithmetic. *)
Lemma kinetic_energy_is_cell_sum_witness :
  DropAtomisation.kinetic_energy (exact (fun _ => 1%R)) 3
    (Combine (Worker [cell_b]) (Worker [cell_a]))
    = DropAtomisation.kinetic_energy (exact (fun _ => 1%R)) 3 (Worker [cell_a; cell_b]) /\
  DropImpact.kinetic_energy (exact (fun _ => 1%R))
    (Combine (Worker [cell_b]) (Worker [cell_a]))
    = DropImpact.kinetic_energy (exact (fun _ => 1%R)) (Worker [cell_a; cell_b]).
Proof.
  pose proof (kinetic_energy_is_cell_sum
                (fun _ => 1%R) 3
                (Worker [cell_a; cell_b]) (Combine (Worker [cell_b]) (Worker [cell_a]))
                (fun x => x) pow_mul [] cell_at_rest (Worker []) (Worker [])
                (perm_swap cell_b cell_a [])) as (_ & _ & H1 & H2 & _).
  exact (conj H1 H2).
Defined.

(** C5 as stated fails on doubles, in both cases: the energy that is
    computed changes when one worker visits the same three cells in another
    order, and it changes when the same cells, in the same order, are split
    between two workers. *)
Lemma kinetic_energy_depends_on_order :
  Permutation [cell_1; cell_2; cell_3] [cell_3; cell_2; cell_1] /\
  (DropAtomisation.kinetic_energy
     (binary64 (rho_two_phase DropAtomisation.rho1 DropAtomisation.rho2) pow_mul)
     DropAtomisation.dimension (Worker [cell_3; cell_2; cell_1])
   <? DropAtomisation.kinetic_energy
        (binary64 (rho_two_phase DropAtomisation.rho1 DropAtomisation.rho2) pow_mul)
        DropAtomisation.dimension (Worker [cell_1; cell_2; cell_3]))%float = true /\
  (DropAtomisation.kinetic_energy
     (binary64 (rho_two_phase DropAtomisation.rho1 DropAtomisation.rho2) pow_mul)
     DropAtomisation.dimension (Combine (Worker [cell_1]) (Worker [cell_2; cell_3]))
   <? DropAtomisation.kinetic_energy
        (binary64 (rho_two_phase DropAtomisation.rho1 DropAtomisation.rho2) pow_mul)
        DropAtomisation.dimension (Worker [cell_1; cell_2; cell_3]))%float = true /\
  Permutation [cell_4; cell_5; cell_6] [cell_4; cell_6; cell_5] /\
  (DropImpact.kinetic_energy
     (binary64 (rho_two_phase DropImpact.rho1 DropImpact.rho2) pow_mul)
     (Worker [cell_4; cell_5; cell_6])
   <? DropImpact.kinetic_energy
        (binary64 (rho_two_phase DropImpact.rho1 DropImpact.rho2) pow_mul)
        (Worker [cell_4; cell_6; cell_5]))%float = true /\
  (DropImpact.kinetic_energy
     (binary64 (rho_two_phase DropImpact.rho1 DropImpact.rho2) pow_mul)
     (Combine (Worker [cell_4]) (Worker [cell_6; cell_5]))
   =? DropImpact.kinetic_energy
        (binary64 (rho_two_phase DropImpact.rho1 DropImpact.rho2) pow_mul)
        (Worker [cell_4; cell_6; cell_5]))%float = false.
Proof.
  refine (conj _ (conj eq_refl (conj eq_refl (conj _ (conj eq_refl eq_refl))))).
  - apply Permutation_rev with (l := [cell_1; cell_2; cell_3]).
  - apply perm_skip, perm_swap.
Qed.

(** ** The kinetic energy on doubles *)

Section NotNegative.

Lemma SFnotneg_inv (a : spec_float) :
  SFnotneg a ->
  match a with
  | S754_zero _ | S754_nan => True
  | S754_infinity s | S754_finite s _ _ => s = false
  end.
Proof.
  unfold SFnotneg.
  destruct a as [s|s| |s m e]; simpl; try destruct s; auto; discriminate.
Qed.

Lemma SFnotneg_same_sign (a : spec_float) : same_sign false a -> SFnotneg a.
Proof. destruct a; simpl; intros H; subst; reflexivity. Qed.

Lemma SFmul_notneg (a b : spec_float) :
  SFnotneg a -> SFnotneg b -> SFnotneg (SF64mul a b).
Proof.
  intros Ha Hb. apply SFnotneg_inv in Ha. apply SFnotneg_inv in Hb.
  destruct a as [sa|sa| |sa ma ea], b as [sb|sb| |sb mb eb]; simpl in *; subst;
    try reflexivity.
  unfold SF64mul, SFmul. apply SFnotneg_same_sign, binary_round_aux_sign.
Qed.

Lemma SFsq_notneg (a : spec_float) : SFnotneg (SF64mul a a).
Proof.
  destruct a as [sa|sa| |sa ma ea]; simpl; try reflexivity.
  - destruct sa; reflexivity.
  - unfold SF64mul, SFmul. rewrite xorb_nilpotent.
    apply SFnotneg_same_sign, binary_round_aux_sign.
Qed.

Lemma SFadd_notneg (a b : spec_float) :
  SFnotneg a -> SFnotneg b -> SFnotneg (SF64add a b).
Proof.
  intros Ha Hb. apply SFnotneg_inv in Ha. apply SFnotneg_inv in Hb.
  destruct a as [sa|sa| |sa ma ea], b as [sb|sb| |sb mb eb]; simpl in *; subst;
    try reflexivity.
  - destruct sa, sb; reflexivity.
  - unfold SF64add, SFadd, binary_normalize, cond_Zopp.
    simpl Z.add. unfold binary_round.
    destruct (shl_align _ _ _) as [mz ez'].
    apply SFnotneg_same_sign, binary_round_aux_sign.
Qed.

Lemma not_negative_spec (x : float) : not_negative x <-> SFnotneg (Prim2SF x).
Proof. unfold not_negative, SFnotneg. rewrite ltb_spec. reflexivity. Qed.

Lemma mul_not_negative (a b : float) :
  not_negative a -> not_negative b -> not_negative (a * b)%float.
Proof. rewrite !not_negative_spec, mul_spec. apply SFmul_notneg. Qed.

Lemma sq_not_negative (a : float) : not_negative (a * a)%float.
Proof. rewrite not_negative_spec, mul_spec. apply SFsq_notneg. Qed.

Lemma add_not_negative (a b : float) :
  not_negative a -> not_negative b -> not_negative (a + b)%float.
Proof. rewrite !not_negative_spec, add_spec. apply SFadd_notneg. Qed.

(** A double that is not negative is a NaN or at least zero. *)
Lemma not_negative_nonneg (x : float) :
  not_negative x -> is_nan x = false -> nonneg x.
Proof.
  rewrite not_negative_spec, is_nan_false, nonneg_spec.
  unfold SFnotneg, SFnonneg.
  destruct (Prim2SF x) as [s|s| |s m e]; try destruct s; simpl;
    try reflexivity; try discriminate; congruence.
Qed.

Lemma nonneg_not_negative (x : float) : nonneg x -> not_negative x.
Proof.
  rewrite not_negative_spec, nonneg_spec. unfold SFnotneg, SFnonneg.
  destruct (Prim2SF x) as [s|s| |s m e]; try destruct s; simpl;
    try reflexivity; discriminate.
Qed.

(** A double that compares below another is no NaN. *)
Lemma ltb_not_nan (a b : float) : (a <? b)%float = true -> is_nan a = false.
Proof.
  rewrite ltb_spec, is_nan_false. intros H E. rewrite E in H. discriminate.
Qed.

End NotNegative.

(** ** Rounding and the size of a result *)

Section Rounding.

Lemma digits2_pos_lower (m : positive) : 2 ^ (Z.pos (digits2_pos m) - 1) <= Z.pos m.
Proof.
  induction m as [m IH|m IH|]; simpl digits2_pos.
  - rewrite Pos2Z.inj_succ.
    replace (Z.succ (Z.pos (digits2_pos m)) - 1) with (Z.succ (Z.pos (digits2_pos m) - 1))
      by lia.
    rewrite Z.pow_succ_r by lia. lia.
  - rewrite Pos2Z.inj_succ.
    replace (Z.succ (Z.pos (digits2_pos m)) - 1) with (Z.succ (Z.pos (digits2_pos m) - 1))
      by lia.
    rewrite Z.pow_succ_r by lia. lia.
  - reflexivity.
Qed.

Lemma digits2_pos_bound (m : positive) : Z.pos m < 2 ^ Z.pos (digits2_pos m).
Proof.
  induction m as [m IH|m IH|]; simpl digits2_pos.
  - rewrite Pos2Z.inj_succ, Z.pow_succ_r by lia. lia.
  - rewrite Pos2Z.inj_succ, Z.pow_succ_r by lia. lia.
  - reflexivity.
Qed.

(** A mantissa below [2^k] has at most [k] binary digits, and conversely. *)
Lemma digits2_pos_le (m : positive) (k : Z) :
  Z.pos m < 2 ^ k -> Z.pos (digits2_pos m) <= k.
Proof.
  intros H. pose proof (digits2_pos_lower m) as L.
  destruct (Z_le_gt_dec (Z.pos (digits2_pos m)) k) as [|G]; [assumption|exfalso].
  assert (0 <= k).
  { destruct (Z_lt_le_dec k 0) as [N|]; [|assumption].
    rewrite Z.pow_neg_r in H by assumption. lia. }
  assert (2 ^ k <= 2 ^ (Z.pos (digits2_pos m) - 1)) by (apply Z.pow_le_mono_r; lia).
  lia.
Qed.

Lemma digits2_pos_ge (m : positive) (k : Z) :
  2 ^ k <= Z.pos m -> k < Z.pos (digits2_pos m).
Proof.
  intros H. pose proof (digits2_pos_bound m) as U.
  destruct (Z_lt_le_dec k (Z.pos (digits2_pos m))) as [|G]; [assumption|exfalso].
  assert (2 ^ Z.pos (digits2_pos m) <= 2 ^ k) by (apply Z.pow_le_mono_r; lia).
  lia.
Qed.

(** What [bounded] says of the mantissa and the exponent of a double. *)
Lemma bounded_inv (m : positive) (e : Z) :
  SpecFloat.bounded prec emax m e = true ->
  -1074 <= e <= 971 /\
  Z.pos m < 2 ^ 53 /\
  (-1074 < e -> 2 ^ 52 <= Z.pos m) /\
  SpecFloat.fexp prec emax (Z.pos (digits2_pos m) + e) = e.
Proof.
  unfold SpecFloat.bounded, SpecFloat.canonical_mantissa. intros H.
  apply andb_prop in H as [H1 H2]. apply Z.eqb_eq in H1. apply Z.leb_le in H2.
  pose proof H1 as H1'.
  unfold SpecFloat.fexp, SpecFloat.emin, FloatOps.prec, FloatOps.emax in H1, H2.
  pose proof (digits2_pos_bound m) as U. pose proof (digits2_pos_lower m) as L.
  refine (conj _ (conj _ (conj _ H1'))).
  - clear - H1 H2. lia.
  - apply Z.lt_le_trans with (1 := U). apply Z.pow_le_mono_r; clear - H1; lia.
  - intros He. assert (D : Z.pos (digits2_pos m) = 53) by (clear - H1 He; lia).
    rewrite D in L. exact L.
Qed.

Lemma scaled_shift (m e k : Z) :
  0 <= k -> 0 <= e + 2200 -> scaled (m * 2 ^ k) e = scaled m (e + k).
Proof.
  intros Hk He. unfold scaled.
  replace (e + k + 2200) with (k + (e + 2200)) by lia.
  rewrite (Z.pow_add_r 2 k (e + 2200)) by lia. ring.
Qed.

Lemma scaled_le_mantissa (m m' e : Z) : m <= m' -> scaled m e <= scaled m' e.
Proof.
  intros H. unfold scaled. apply Z.mul_le_mono_nonneg_r; [|assumption].
  apply Z.pow_nonneg. lia.
Qed.

Lemma scaled_lt_inv (m m' e : Z) :
  0 <= e + 2200 -> scaled m e < scaled m' e -> m < m'.
Proof.
  intros He H. unfold scaled in H.
  assert (0 < 2 ^ (e + 2200)) by (apply Z.pow_pos_nonneg; lia). nia.
Qed.

Lemma scaled_le_inv (m m' e : Z) :
  0 <= e + 2200 -> scaled m e <= scaled m' e -> m <= m'.
Proof.
  intros He H. unfold scaled in H.
  assert (0 < 2 ^ (e + 2200)) by (apply Z.pow_pos_nonneg; lia). nia.
Qed.

(** The value of a double lies below the power of two past its digits. *)
Lemma scaled_upper (m : positive) (e : Z) :
  0 <= e + 2200 ->
  scaled (Z.pos m) e < 2 ^ (Z.pos (digits2_pos m) + e + 2200).
Proof.
  intros He. unfold scaled. pose proof (digits2_pos_bound m) as U.
  replace (Z.pos (digits2_pos m) + e + 2200) with (Z.pos (digits2_pos m) + (e + 2200))
    by lia.
  rewrite (Z.pow_add_r 2 (Z.pos (digits2_pos m)) (e + 2200)) by lia.
  apply Z.mul_lt_mono_pos_r; [apply Z.pow_pos_nonneg; lia | assumption].
Qed.

Lemma scaled_lower (m : positive) (e : Z) :
  0 <= e + 2200 ->
  2 ^ (Z.pos (digits2_pos m) - 1 + e + 2200) <= scaled (Z.pos m) e.
Proof.
  intros He. unfold scaled. pose proof (digits2_pos_lower m) as L.
  replace (Z.pos (digits2_pos m) - 1 + e + 2200)
    with ((Z.pos (digits2_pos m) - 1) + (e + 2200)) by lia.
  rewrite (Z.pow_add_r 2 (Z.pos (digits2_pos m) - 1) (e + 2200)) by lia.
  apply Z.mul_le_mono_nonneg_r; [apply Z.pow_nonneg; lia | assumption].
Qed.

Lemma shr_1_shifted (M k : Z) (mrs : shr_record) :
  0 <= k -> shifted M k mrs -> shifted M (k + 1) (shr_1 mrs).
Proof.
  intros Hk (Hm & rem & HM & Hr & Hz).
  assert (P : 2 ^ (k + 1) = 2 ^ k + 2 ^ k) by (rewrite Z.pow_add_r by lia; ring).
  set (T := 2 ^ k) in *.
  assert (Q : 0 < 2 ^ k) by (apply Z.pow_pos_nonneg; lia).
  assert (Hs : rem = 0 -> orb (shr_r mrs) (shr_s mrs) = false).
  { intros Z0. destruct (Hz Z0) as [-> ->]. reflexivity. }
  destruct mrs as [m r s]. unfold shifted. rewrite P.
  cbn [shr_m shr_r shr_s] in *.
  destruct m as [|[p|p|]|p]; cbn [shr_1 shr_m shr_r shr_s]; try lia.
  - split; [lia|]. exists rem.
    split; [rewrite HM; ring | split; [lia | intros Z0; split; [reflexivity | auto]]].
  - split; [lia|]. exists (T + rem).
    split; [rewrite HM, Pos2Z.inj_xI; ring | split; [lia | intros Z0; lia]].
  - split; [lia|]. exists rem.
    split; [rewrite HM, Pos2Z.inj_xO; ring
           | split; [lia | intros Z0; split; [reflexivity | auto]]].
  - split; [lia|]. exists (T + rem).
    split; [rewrite HM; ring | split; [lia | intros Z0; lia]].
Qed.

Lemma iter_shr_1_shifted (M : Z) (p : positive) :
  forall k mrs,
    0 <= k -> shifted M k mrs ->
    shifted M (k + Z.pos p) (SpecFloat.iter_pos shr_1 p mrs).
Proof.
  induction p as [p IH|p IH|]; intros k mrs Hk H; simpl.
  - replace (k + Z.pos p~1) with (k + 1 + Z.pos p + Z.pos p) by lia.
    apply IH; [lia|]. apply IH; [lia|]. now apply shr_1_shifted.
  - replace (k + Z.pos p~0) with (k + Z.pos p + Z.pos p) by lia.
    apply IH; [lia|]. now apply IH.
  - now apply shr_1_shifted.
Qed.

(** The first step of rounding: the mantissa is cut down to the exponent
    of the format. *)
Lemma shr_fexp_shifted (m e : Z) :
  0 <= m ->
  let r := shr_fexp prec emax m e loc_Exact in
  snd r = Z.max e (SpecFloat.fexp prec emax (Zdigits2 m + e)) /\
  shifted m (snd r - e) (fst r).
Proof.
  intros Hm r. subst r. unfold shr_fexp, shr.
  assert (S0 : shifted m 0 (shr_record_of_loc m loc_Exact)).
  { split; [exact Hm|]. exists 0. simpl. repeat split; lia. }
  destruct (SpecFloat.fexp prec emax (Zdigits2 m + e) - e) as [|p|p] eqn:N; simpl.
  - split; [lia|]. now replace (e - e) with 0 by lia.
  - split; [lia|]. replace (e + Z.pos p - e) with (0 + Z.pos p) by lia.
    apply iter_shr_1_shifted; [lia | exact S0].
  - split; [lia|]. now replace (e - e) with 0 by lia.
Qed.

Lemma round_nearest_even_shifted (M k : Z) (mrs : shr_record) :
  shifted M k mrs ->
  let r := round_nearest_even (shr_m mrs) (loc_of_shr_record mrs) in
  r = shr_m mrs \/ (r = shr_m mrs + 1 /\ shr_m mrs * 2 ^ k < M).
Proof.
  intros (Hm & rem & HM & Hr & Hz) r. subst r.
  destruct mrs as [m [|] [|]]; simpl in *;
    try (left; reflexivity);
    assert (rem <> 0) by (intros Z0; destruct (Hz Z0); discriminate).
  - right. split; [reflexivity | lia].
  - destruct (Z.even m); [left; reflexivity | right; split; [reflexivity | lia]].
Qed.

Lemma scaled_lt_mantissa (m m' e : Z) :
  0 <= e + 2200 -> m < m' -> scaled m e < scaled m' e.
Proof.
  intros He H. unfold scaled.
  apply Z.mul_lt_mono_pos_r; [apply Z.pow_pos_nonneg; lia | assumption].
Qed.

(** A value below [2^(53 + ey)] has its digits end at [ey] or lower. *)
Lemma scaled_digits_bound (m : positive) (e ey Y : Z) :
  0 <= e + 2200 -> 0 <= 53 + ey + 2200 ->
  scaled (Z.pos m) e <= Y -> Y < 2 ^ (53 + ey + 2200) ->
  Z.pos (digits2_pos m) + e - 53 <= ey.
Proof.
  intros He Hey H1 H2. pose proof (scaled_lower m e He) as L.
  assert (P : 2 ^ (Z.pos (digits2_pos m) - 1 + e + 2200) < 2 ^ (53 + ey + 2200)) by lia.
  apply Z.pow_lt_mono_r_iff in P; lia.
Qed.

(** Rounding to nearest does not pass a double that lies above the value
    rounded. *)
Lemma binary_round_aux_bound (s : bool) (M : positive) (E : Z) (my : positive) (ey : Z) :
  SpecFloat.bounded prec emax my ey = true ->
  0 <= E + 2200 ->
  E <= SpecFloat.fexp prec emax (Z.pos (digits2_pos M) + E) ->
  scaled (Z.pos M) E <= scaled (Z.pos my) ey ->
  binary_round_aux prec emax s (Z.pos M) E loc_Exact = S754_zero s \/
  exists m e,
    binary_round_aux prec emax s (Z.pos M) E loc_Exact = S754_finite s m e /\
    scaled (Z.pos m) e <= scaled (Z.pos my) ey.
Proof.
  intros Hb HE Hpre HY.
  destruct (bounded_inv my ey Hb) as (Hey & Hmy & _ & _).
  assert (HYu : scaled (Z.pos my) ey < 2 ^ (53 + ey + 2200)).
  { unfold scaled. replace (53 + ey + 2200) with (53 + (ey + 2200)) by lia.
    rewrite (Z.pow_add_r 2 53 (ey + 2200)) by lia.
    apply Z.mul_lt_mono_pos_r; [apply Z.pow_pos_nonneg; lia | assumption]. }
  set (Y := scaled (Z.pos my) ey) in *.
  unfold binary_round_aux.
  pose proof (shr_fexp_shifted (Z.pos M) E ltac:(lia)) as S1. cbv zeta in S1.
  destruct (shr_fexp prec emax (Z.pos M) E loc_Exact) as [mrs1 e1].
  cbn [fst snd] in S1. destruct S1 as [He1 Sh1].
  cbn [Zdigits2] in He1.
  assert (He1' : e1 = SpecFloat.fexp prec emax (Z.pos (digits2_pos M) + E))
    by (clear - He1 Hpre; lia).
  pose proof (round_nearest_even_shifted _ _ _ Sh1) as R1. cbv zeta in R1.
  set (r1 := round_nearest_even (shr_m mrs1) (loc_of_shr_record mrs1)) in *.
  destruct Sh1 as (Hm1 & rem & HM1 & Hrem & _).
  assert (Hn1 : 0 <= e1 - E) by (clear - He1; lia).
  assert (Hr1 : 0 <= r1) by (destruct R1 as [->|[-> _]]; lia).
  assert (Hd1 : Z.pos (digits2_pos M) + E - 53 <= ey).
  { apply (scaled_digits_bound M E ey Y); auto. clear - Hey. lia. }
  assert (Hs1 : scaled (shr_m mrs1 * 2 ^ (e1 - E)) E = scaled (shr_m mrs1) e1).
  { rewrite scaled_shift by assumption. f_equal. lia. }
  assert (B : scaled r1 e1 <= Y).
  { destruct R1 as [Eq|[Eq Hlt]]; rewrite Eq.
    - rewrite <- Hs1. apply Z.le_trans with (2 := HY).
      apply scaled_le_mantissa. clear - HM1 Hrem. lia.
    - destruct (Z_le_gt_dec e1 ey) as [Le|Gt].
      + assert (HYs : scaled (Z.pos my * 2 ^ (ey - e1)) e1 = Y).
        { unfold Y. rewrite scaled_shift by lia. f_equal. lia. }
        rewrite <- HYs. apply scaled_le_mantissa.
        assert (Hl : shr_m mrs1 < Z.pos my * 2 ^ (ey - e1)).
        { apply (scaled_lt_inv _ _ e1); [lia|].
          rewrite HYs, <- Hs1. apply Z.lt_le_trans with (2 := HY).
          now apply scaled_lt_mantissa. }
        lia.
      + exfalso. clear - He1' Gt Hey Hd1.
        unfold SpecFloat.fexp, SpecFloat.emin, FloatOps.prec, FloatOps.emax in He1'.
        lia. }
  pose proof (shr_fexp_shifted r1 e1 Hr1) as S2. cbv zeta in S2.
  destruct (shr_fexp prec emax r1 e1 loc_Exact) as [mrs2 e2].
  cbn [fst snd] in S2. destruct S2 as [He2 (Hm2 & rem2 & HM2 & Hrem2 & _)].
  assert (Hn2 : 0 <= e2 - e1) by (clear - He2; lia).
  assert (C : scaled (shr_m mrs2) e2 <= Y).
  { apply Z.le_trans with (2 := B).
    replace e2 with (e1 + (e2 - e1)) at 1 by lia.
    rewrite <- scaled_shift by lia.
    apply scaled_le_mantissa. clear - HM2 Hrem2. lia. }
  destruct (shr_m mrs2) as [|m|m] eqn:Em; [left; reflexivity | right | lia].
  assert (He2b : e2 <= 971).
  { assert (F1 : e1 <= 971).
    { clear - He1' Hd1 Hey.
      unfold SpecFloat.fexp, SpecFloat.emin, FloatOps.prec, FloatOps.emax in He1'.
      lia. }
    assert (F2 : SpecFloat.fexp prec emax (Zdigits2 r1 + e1) <= 971).
    { destruct r1 as [|pr|pr] eqn:Er; cbn [Zdigits2].
      - clear - F1. unfold SpecFloat.fexp, SpecFloat.emin, FloatOps.prec, FloatOps.emax.
        lia.
      - assert (Hd2 : Z.pos (digits2_pos pr) + e1 - 53 <= ey).
        { apply (scaled_digits_bound pr e1 ey Y); auto; clear - Hey Hn1 HE; lia. }
        clear - Hd2 Hey.
        unfold SpecFloat.fexp, SpecFloat.emin, FloatOps.prec, FloatOps.emax. lia.
      - lia. }
    clear - He2 F1 F2. lia. }
  exists m, e2. split; [|exact C].
  replace (e2 <=? emax - prec) with true; [reflexivity|].
  symmetry. apply Z.leb_le. unfold FloatOps.prec, FloatOps.emax. clear - He2b. lia.
Qed.

(** Two positive doubles in order. *)
Lemma SFleb_finite_inv (m m' : positive) (e e' : Z) :
  SFleb (S754_finite false m e) (S754_finite false m' e') = true ->
  e < e' \/ (e = e' /\ Z.pos m <= Z.pos m').
Proof.
  unfold SFleb, SFcompare. intros Hle.
  destruct (Z.compare_spec e e') as [E|E|E]; [right|left; exact E|discriminate].
  split; [exact E|].
  rewrite compare_cont_Eq in Hle.
  destruct (Pos.compare_spec m m') as [F|F|F]; [| |discriminate].
  - rewrite F. apply Z.le_refl.
  - apply Z.lt_le_incl. apply Pos2Z.pos_lt_pos. exact F.
Qed.

Lemma SFltb_false_leb (m m' : positive) (e e' : Z) :
  SFltb (S754_finite false m' e') (S754_finite false m e) = false ->
  SFleb (S754_finite false m e) (S754_finite false m' e') = true.
Proof.
  unfold SFltb, SFleb, SFcompare.
  rewrite (compare_cont_Eq m' m), (compare_cont_Eq m m').
  rewrite (Z.compare_antisym e e'), (Pos.compare_antisym m m').
  destruct (e ?= e'); simpl; try reflexivity; try discriminate.
  destruct (m ?= m')%positive; simpl; try reflexivity; discriminate.
Qed.

(** The order of two doubles is the order of their values. *)
Lemma SFleb_scaled (m m' : positive) (e e' : Z) :
  SpecFloat.bounded prec emax m e = true ->
  SpecFloat.bounded prec emax m' e' = true ->
  SFleb (S754_finite false m e) (S754_finite false m' e') = true ->
  scaled (Z.pos m) e <= scaled (Z.pos m') e'.
Proof.
  intros Hb Hb' H.
  destruct (bounded_inv m e Hb) as (He & Hm & _ & _).
  destruct (bounded_inv m' e' Hb') as (He' & _ & Hn' & _).
  apply SFleb_finite_inv in H as [Hlt|[-> Hle]].
  - replace e' with (e + (e' - e)) by lia.
    rewrite <- scaled_shift by lia. apply scaled_le_mantissa.
    assert (P : 2 ^ 1 <= 2 ^ (e' - e)) by (apply Z.pow_le_mono_r; lia).
    assert (Q : 2 ^ 52 <= Z.pos m') by (apply Hn'; lia).
    change (2 ^ 53) with (2 ^ 52 * 2 ^ 1) in Hm.
    assert (0 < 2 ^ 52) by reflexivity.
    clear - Hm P Q H. nia.
  - now apply scaled_le_mantissa.
Qed.

(** Shifting a mantissa to the left. *)
Lemma iter_xO_value (m d : positive) :
  Z.pos (Pos.iter xO m d) = Z.pos m * 2 ^ Z.pos d.
Proof.
  induction d as [|d IH] using Pos.peano_ind.
  - change (Pos.iter xO m 1) with (xO m). rewrite Pos2Z.inj_xO.
    change (2 ^ 1) with 2. ring.
  - rewrite Pos.iter_succ, Pos2Z.inj_xO, IH, Pos2Z.inj_succ, Z.pow_succ_r by lia.
    ring.
Qed.

Lemma iter_xO_digits (m d : positive) :
  Z.pos (digits2_pos (Pos.iter xO m d)) = Z.pos (digits2_pos m) + Z.pos d.
Proof.
  induction d as [|d IH] using Pos.peano_ind.
  - change (Pos.iter xO m 1) with (xO m). cbn [digits2_pos].
    rewrite Pos2Z.inj_succ. lia.
  - rewrite Pos.iter_succ. cbn [digits2_pos].
    rewrite Pos2Z.inj_succ, IH, Pos2Z.inj_succ. lia.
Qed.

Lemma shl_align_value (m : positive) (e ez : Z) :
  ez <= e ->
  Z.pos (fst (shl_align m e ez)) = Z.pos m * 2 ^ (e - ez).
Proof.
  intros H. unfold shl_align.
  destruct (ez - e) as [|d|d] eqn:N; cbn [fst].
  - replace (e - ez) with 0 by lia. change (2 ^ 0) with 1. lia.
  - lia.
  - rewrite iter_xO_value. f_equal. f_equal. lia.
Qed.

(** [binary_round] keeps the bound of the value it rounds. *)
Lemma binary_round_bound (s : bool) (m : positive) (e : Z) (my : positive) (ey : Z) :
  SpecFloat.bounded prec emax my ey = true ->
  -1074 <= e ->
  scaled (Z.pos m) e <= scaled (Z.pos my) ey ->
  binary_round prec emax s m e = S754_zero s \/
  exists m' e',
    binary_round prec emax s m e = S754_finite s m' e' /\
    scaled (Z.pos m') e' <= scaled (Z.pos my) ey.
Proof.
  intros Hb He HY. unfold binary_round, shl_align.
  set (f0 := SpecFloat.fexp prec emax (Z.pos (digits2_pos m) + e)).
  assert (Hf0 : -1074 <= f0).
  { unfold f0, SpecFloat.fexp, SpecFloat.emin, FloatOps.prec, FloatOps.emax. lia. }
  destruct (f0 - e) as [|d|d] eqn:N.
  - apply binary_round_aux_bound; auto; [lia | fold f0; lia].
  - apply binary_round_aux_bound; auto; [lia | fold f0; lia].
  - apply binary_round_aux_bound; auto.
    + lia.
    + rewrite iter_xO_digits.
      replace (Z.pos (digits2_pos m) + Z.pos d + f0) with (Z.pos (digits2_pos m) + e)
        by lia.
      fold f0. lia.
    + rewrite iter_xO_value.
      rewrite scaled_shift by lia.
      replace (f0 + Z.pos d) with e by lia. exact HY.
Qed.

(** The product with a factor between 0 and 1 is no larger than the other
    factor. *)
Lemma SFmul_magnitude (mc : positive) (ec : Z) (sd : bool) (md : positive) (ed : Z) :
  SpecFloat.bounded prec emax mc ec = true ->
  SpecFloat.bounded prec emax md ed = true ->
  SFleb (S754_finite false mc ec) (Prim2SF 1) = true ->
  SF64mul (S754_finite false mc ec) (S754_finite sd md ed) = S754_zero sd \/
  exists m e,
    SF64mul (S754_finite false mc ec) (S754_finite sd md ed) = S754_finite sd m e /\
    scaled (Z.pos m) e <= scaled (Z.pos md) ed.
Proof.
  intros Hc Hd H1.
  destruct (bounded_inv mc ec Hc) as (Hec & Hmc & Hnc & _).
  destruct (bounded_inv md ed Hd) as (Hed & Hmd & Hnd & _).
  change (Prim2SF 1) with (S754_finite false 4503599627370496 (-52)) in H1.
  apply SFleb_finite_inv in H1.
  change (Z.pos 4503599627370496) with (2 ^ 52) in H1.
  assert (Hle : ec <= -52 /\ Z.pos mc <= 2 ^ (- ec)).
  { destruct H1 as [Hlt|[-> Hm]]; [|split; [lia | exact Hm]].
    split; [lia|]. apply Z.lt_le_incl, Z.lt_le_trans with (1 := Hmc).
    apply Z.pow_le_mono_r; lia. }
  destruct Hle as [Hec' Hmc'].
  unfold SF64mul, SFmul. cbn [xorb].
  apply binary_round_aux_bound; auto.
  - lia.
  - assert (Hp : 1 <= Z.pos mc /\ 1 <= Z.pos md) by lia.
    unfold SpecFloat.fexp, SpecFloat.emin, FloatOps.prec, FloatOps.emax.
    destruct (Z_le_gt_dec ec (-1074)) as [L1|G1];
      [destruct (Z_le_gt_dec ed (-1074)) as [L2|G2]|].
    + clear - L1 L2 Hec Hed. lia.
    + assert (Q : 2 ^ 52 <= Z.pos (mc * md)).
      { rewrite Pos2Z.inj_mul. specialize (Hnd ltac:(lia)).
        clear - Hnd Hp. nia. }
      apply digits2_pos_ge in Q. clear - Q. lia.
    + assert (Q : 2 ^ 52 <= Z.pos (mc * md)).
      { rewrite Pos2Z.inj_mul. specialize (Hnc ltac:(lia)).
        clear - Hnc Hp. nia. }
      apply digits2_pos_ge in Q. clear - Q. lia.
  - rewrite Pos2Z.inj_mul. unfold scaled.
    replace (ed + 2200) with (- ec + (ec + ed + 2200)) by lia.
    rewrite (Z.pow_add_r 2 (- ec) (ec + ed + 2200)) by lia.
    assert (T : 0 <= 2 ^ (ec + ed + 2200)) by (apply Z.pow_nonneg; lia).
    assert (P : 0 < Z.pos md) by lia.
    clear - Hmc' T P. nia.
Qed.

Lemma binary_round_notneg (m : positive) (e : Z) :
  SFnotneg (binary_round prec emax false m e).
Proof.
  unfold binary_round. destruct (shl_align _ _ _) as [mz ez].
  apply SFnotneg_same_sign, binary_round_aux_sign.
Qed.

(** The difference of two positive doubles is either not negative or no
    larger than the double that is taken away. *)
Lemma SFsub_magnitude (ma mb : positive) (ea eb : Z) :
  SpecFloat.bounded prec emax ma ea = true ->
  SpecFloat.bounded prec emax mb eb = true ->
  SFnotneg (SF64sub (S754_finite false ma ea) (S754_finite false mb eb)) \/
  exists m e,
    SF64sub (S754_finite false ma ea) (S754_finite false mb eb) = S754_finite true m e /\
    scaled (Z.pos m) e <= scaled (Z.pos mb) eb.
Proof.
  intros Ha Hb.
  destruct (bounded_inv ma ea Ha) as (Hea & _).
  destruct (bounded_inv mb eb Hb) as (Heb & _).
  unfold SF64sub, SFsub, cond_Zopp.
  set (ez := Z.min ea eb).
  rewrite (shl_align_value ma ea ez), (shl_align_value mb eb ez) by (unfold ez; lia).
  destruct (Z.pos ma * 2 ^ (ea - ez) - Z.pos mb * 2 ^ (eb - ez)) as [|m|m] eqn:D;
    cbn [binary_normalize].
  - left. reflexivity.
  - left. apply binary_round_notneg.
  - destruct (binary_round_bound true m ez mb eb Hb) as [Z0|(m' & e' & E & B)].
    + unfold ez. lia.
    + assert (Es : scaled (Z.pos mb * 2 ^ (eb - ez)) ez = scaled (Z.pos mb) eb).
      { rewrite scaled_shift by (unfold ez; lia). f_equal. lia. }
      rewrite <- Es. apply scaled_le_mantissa.
      assert (0 < Z.pos ma * 2 ^ (ea - ez)).
      { apply Z.mul_pos_pos; [lia | apply Z.pow_pos_nonneg; unfold ez; lia]. }
      lia.
    + left. rewrite Z0. reflexivity.
    + right. exists m', e'. split; assumption.
Qed.

(** Adding a positive double to a negative one that is no larger. *)
Lemma SFadd_neg_bounded (mp mb : positive) (ep eb : Z) :
  SpecFloat.bounded prec emax mp ep = true ->
  SpecFloat.bounded prec emax mb eb = true ->
  scaled (Z.pos mp) ep <= scaled (Z.pos mb) eb ->
  SFnotneg (SF64add (S754_finite true mp ep) (S754_finite false mb eb)).
Proof.
  intros Hp Hb H.
  destruct (bounded_inv mp ep Hp) as (Hep & _).
  destruct (bounded_inv mb eb Hb) as (Heb & _).
  unfold SF64add, SFadd, cond_Zopp.
  set (ez := Z.min ep eb).
  rewrite (shl_align_value mp ep ez), (shl_align_value mb eb ez) by (unfold ez; lia).
  destruct (- (Z.pos mp * 2 ^ (ep - ez)) + Z.pos mb * 2 ^ (eb - ez)) as [|m|m] eqn:D;
    cbn [binary_normalize].
  - reflexivity.
  - apply binary_round_notneg.
  - exfalso.
    assert (L : Z.pos mp * 2 ^ (ep - ez) <= Z.pos mb * 2 ^ (eb - ez)).
    { apply (scaled_le_inv _ _ ez); [unfold ez; lia|].
      rewrite !scaled_shift by (unfold ez; lia).
      replace (ez + (ep - ez)) with ep by lia.
      replace (ez + (eb - ez)) with eb by lia. exact H. }
    lia.
Qed.

(** What [clamp(x, 0., 1.)] returns: a NaN, a zero, or a double between 0
    and 1. *)
Lemma clamp_unit (x : float) :
  match Prim2SF (clamp x 0 1) with
  | S754_nan | S754_zero _ => True
  | S754_infinity _ => False
  | S754_finite s m e => s = false /\ SFleb (S754_finite false m e) (Prim2SF 1) = true
  end.
Proof.
  unfold clamp.
  destruct (x <? 0)%float eqn:A; [exact I|].
  destruct (1 <? x)%float eqn:B; [split; reflexivity|].
  rewrite ltb_spec in A, B.
  change (Prim2SF 0) with (S754_zero false) in A.
  change (Prim2SF 1) with (S754_finite false 4503599627370496 (-52)) in *.
  destruct (Prim2SF x) as [s|s| |s m e]; try exact I.
  - destruct s; discriminate.
  - destruct s; [discriminate A|]. split; [reflexivity|].
    now apply SFltb_false_leb.
Qed.

Lemma SFpositive_inv (a : spec_float) :
  SFltb (S754_zero false) a = true ->
  a = S754_infinity false \/ exists m e, a = S754_finite false m e.
Proof.
  destruct a as [s|s| |s m e]; try destruct s; try discriminate; intros _.
  - now left.
  - right. now exists m, e.
Qed.

(** The density macro of the two-phase header is never negative when both
    phase densities are positive, whatever the volume fraction is: it is a
    NaN, a zero or a positive double. *)
Lemma SFrho_not_negative (a b c d p : spec_float) :
  SFltb (S754_zero false) a = true ->
  SFltb (S754_zero false) b = true ->
  SpecFloat.valid_binary prec emax a = true ->
  SpecFloat.valid_binary prec emax b = true ->
  SpecFloat.valid_binary prec emax c = true ->
  SpecFloat.valid_binary prec emax d = true ->
  SpecFloat.valid_binary prec emax p = true ->
  match c with
  | S754_nan | S754_zero _ => True
  | S754_infinity _ => False
  | S754_finite s m e => s = false /\ SFleb (S754_finite false m e) (Prim2SF 1) = true
  end ->
  d = SF64sub a b ->
  p = SF64mul c d ->
  SFnotneg (SF64add p b).
Proof.
  intros Ha Hb Va Vb Vc Vd Vp Hc Ed Ep.
  assert (Nc : SFnotneg c).
  { destruct c as [s|s| |s m e]; try reflexivity; [contradiction|].
    destruct Hc as [-> _]. reflexivity. }
  assert (Nb : SFnotneg b).
  { apply SFpositive_inv in Hb as [->|(mb & eb & ->)]; reflexivity. }
  assert (Easy : SFnotneg d -> SFnotneg (SF64add p b)).
  { intros Nd. apply SFadd_notneg; [|exact Nb]. rewrite Ep. now apply SFmul_notneg. }
  apply SFpositive_inv in Ha as [->|(ma & ea & ->)];
    apply SFpositive_inv in Hb as [->|(mb & eb & ->)].
  - subst d. subst p.
    destruct c as [s|s| |s m e]; try reflexivity; try contradiction.
  - apply Easy. subst d. reflexivity.
  - subst d. subst p.
    destruct c as [s|s| |s m e]; try reflexivity; try contradiction.
    destruct Hc as [-> _]. reflexivity.
  - cbn [SpecFloat.valid_binary] in Va, Vb.
    destruct (SFsub_magnitude ma mb ea eb Va Vb) as [Nd|(md & ed & E & B)];
      [apply Easy; now rewrite Ed|].
    rewrite E in Ed. subst d. cbn [SpecFloat.valid_binary] in Vd.
    destruct c as [s|s| |s mc ec].
    + subst p. reflexivity.
    + contradiction.
    + subst p. reflexivity.
    + destruct Hc as [-> Hc]. cbn [SpecFloat.valid_binary] in Vc.
      destruct (SFmul_magnitude mc ec true md ed Vc Vd Hc) as [Z0|(m & e & Em & Bm)].
      * rewrite Ep, Z0. reflexivity.
      * rewrite Em in Ep. subst p. cbn [SpecFloat.valid_binary] in Vp.
        apply SFadd_neg_bounded; auto.
        now apply Z.le_trans with (1 := Bm).
Qed.

Lemma rho_two_phase_not_negative (rho1 rho2 x : float) :
  (0 <? rho1)%float = true -> (0 <? rho2)%float = true ->
  not_negative (rho_two_phase rho1 rho2 x).
Proof.
  intros H1 H2. unfold rho_two_phase.
  rewrite ltb_spec in H1, H2. change (Prim2SF 0) with (S754_zero false) in H1, H2.
  rewrite not_negative_spec, add_spec.
  apply (SFrho_not_negative (Prim2SF rho1) (Prim2SF rho2) (Prim2SF (clamp x 0 1))
           (Prim2SF (rho1 - rho2))); auto using Prim2SF_valid.
  - apply clamp_unit.
  - apply sub_spec.
  - rewrite mul_spec. reflexivity.
Qed.

End Rounding.

Section FloatEnergy.

Variable rho : float -> float.
Variable pow : float -> nat -> float.

Let N : Numerics := binary64 rho pow.

Lemma foreach_sum_nonneg (term : Cell float -> float) (cells : list (Cell float)) :
  (forall c, In c cells -> nonneg (term c)) ->
  forall acc,
    nonneg acc ->
    nonneg (fold_left (fun ke c => (ke + term c)%float) cells acc).
Proof.
  induction cells as [|c cells IH]; intros Ht acc Hacc; simpl; [assumption|].
  apply IH.
  - intros c' Hc'. apply Ht. now right.
  - apply add_nonneg; [assumption | apply Ht; now left].
Qed.

(** The partial sums of the workers, added in any order, of terms that are
    at least zero. *)
Lemma mesh_sum_nonneg (term : Cell float -> float) (mesh : Mesh float) :
  (forall c, In c (cells_of mesh) -> nonneg (term c)) ->
  nonneg (foreach_sum N term mesh).
Proof.
  induction mesh as [cells|a IHa b IHb]; intros Ht.
  - apply (foreach_sum_nonneg term cells Ht). reflexivity.
  - simpl in Ht. apply add_nonneg; [apply IHa | apply IHb];
      intros c Hc; apply Ht, in_or_app; auto.
Qed.

Lemma atomisation_term_not_negative (d : nat) (c : Cell float) :
  not_negative (rho (f c)) ->
  not_negative (pow (Delta c) d) ->
  not_negative (DropAtomisation.ke_term N d c).
Proof.
  intros Hrho Hpow. unfold DropAtomisation.ke_term, sq. simpl.
  apply mul_not_negative; [|assumption].
  apply mul_not_negative.
  - apply mul_not_negative; [reflexivity | assumption].
  - destruct (Nat.eqb d 3); repeat apply add_not_negative; apply sq_not_negative.
Qed.

Lemma impact_term_not_negative (c : Cell float) :
  not_negative (rho (f c)) ->
  not_negative (y c) ->
  not_negative (DropImpact.ke_term N c).
Proof.
  intros Hrho Hy. unfold DropImpact.ke_term, sq. simpl.
  apply mul_not_negative; [|apply sq_not_negative].
  apply mul_not_negative.
  - apply mul_not_negative; [reflexivity | assumption].
  - apply mul_not_negative.
    + apply mul_not_negative; [reflexivity | assumption].
    + apply add_not_negative; apply sq_not_negative.
Qed.

Lemma atomisation_passes (w : World) (i : Z) (dt t ke : float) (expr : string) :
  (-1e-10 <? ke)%float = true ->
  outcome (DropAtomisation.logWriting_body w i dt t ke) <> inr (AssertionFailed expr).
Proof.
  intros Ha. unfold DropAtomisation.logWriting_body, fopen. rewrite Ha.
  destruct (pid w =? 0), (can_open w 1%nat "log"),
    (can_open w 0%nat DropAtomisation.logFile),
    (i =? 0), (10 <? i), (1e6 <? ke)%float, (ke <? 1e-6)%float; discriminate.
Qed.

Lemma impact_passes (w : World) (i : Z) (dt t ke : float) (expr : string) :
  (-1e-10 <? ke)%float = true ->
  outcome (DropImpact.logWriting_body w i dt t ke) <> inr (AssertionFailed expr).
Proof.
  intros Ha. unfold DropImpact.logWriting_body, fopen. rewrite Ha.
  destruct (pid w =? 0), (can_open w 0%nat "log"), (can_open w 1%nat "log"),
    (i =? 0), (10 <? i), (1e2 <? ke)%float, (ke <? 1e-8)%float; discriminate.
Qed.

End FloatEnergy.

Lemma foreach_sum_nan_acc (term : Cell float -> float) (cells : list (Cell float)) :
  forall acc,
    is_nan acc = true ->
    is_nan (fold_left (fun ke c => (ke + term c)%float) cells acc) = true.
Proof.
  induction cells as [|c cells IH]; intros acc Hacc; simpl; [assumption|].
  apply IH. now apply add_nan_l.
Qed.

Lemma foreach_sum_nan (term : Cell float -> float) (cells : list (Cell float)) :
  (exists c, In c cells /\ is_nan (term c) = true) ->
  forall acc,
    is_nan (fold_left (fun ke c => (ke + term c)%float) cells acc) = true.
Proof.
  induction cells as [|c cells IH]; intros (c' & Hin & Hn) acc; simpl.
  - contradiction.
  - destruct Hin as [<-|Hin].
    + apply foreach_sum_nan_acc. now apply add_nan_r.
    + apply IH. now exists c'.
Qed.

(** One NaN term on one worker makes the reduced energy a NaN. *)
Lemma mesh_sum_nan (rho : float -> float) (pow : float -> nat -> float)
      (term : Cell float -> float) (mesh : Mesh float) :
  (exists c, In c (cells_of mesh) /\ is_nan (term c) = true) ->
  is_nan (foreach_sum (binary64 rho pow) term mesh) = true.
Proof.
  induction mesh as [cells|a IHa b IHb]; intros (c & Hin & Hn).
  - apply (foreach_sum_nan term cells). now exists c.
  - simpl in Hin. apply in_app_or in Hin as [Hin|Hin].
    + apply add_nan_l, IHa. now exists c.
    + apply add_nan_r, IHb. now exists c.
Qed.

(** Either some term is a NaN or none is. *)
Lemma nan_term_or_none (term : Cell float -> float) (cells : list (Cell float)) :
  (exists c, In c cells /\ is_nan (term c) = true) \/
  (forall c, In c cells -> is_nan (term c) = false).
Proof.
  induction cells as [|c cells [(c' & Hin & Hn)|IH]].
  - right. intros c [].
  - left. exists c'. split; [now right | assumption].
  - destruct (is_nan (term c)) eqn:E.
    + left. exists c. split; [now left | assumption].
    + right. intros c' [<-|Hc']; [assumption | now apply IH].
Qed.

(** The reduced energy of terms that are not negative: it is a NaN exactly
    when a term is, and at least zero otherwise. *)
Lemma mesh_sum_nan_iff (rho : float -> float) (pow : float -> nat -> float)
      (term : Cell float -> float) (mesh : Mesh float) :
  (forall c, In c (cells_of mesh) -> not_negative (term c)) ->
  (is_nan (foreach_sum (binary64 rho pow) term mesh) = true <->
   exists c, In c (cells_of mesh) /\ is_nan (term c) = true) /\
  (is_nan (foreach_sum (binary64 rho pow) term mesh) = false ->
   nonneg (foreach_sum (binary64 rho pow) term mesh)).
Proof.
  intros Ht.
  destruct (nan_term_or_none term (cells_of mesh)) as [He|Hn].
  - pose proof (mesh_sum_nan rho pow term mesh He) as Hk. split.
    + split; [intros _; exact He | intros _; exact Hk].
    + intros H. rewrite Hk in H. discriminate.
  - assert (Hk : nonneg (foreach_sum (binary64 rho pow) term mesh)).
    { apply mesh_sum_nonneg. intros c Hc.
      apply not_negative_nonneg; [now apply Ht | now apply Hn]. }
    split; [split|intros _; exact Hk].
    + intros H. rewrite (nonneg_not_nan _ Hk) in H. discriminate.
    + intros (c & Hc & Hnan). rewrite (Hn c Hc) in Hnan. discriminate.
Qed.

(** How [logWriting] is left when the energy is a NaN: through the failed
    assertion, unless rank 0 could not open its run log and has returned 1
    before. *)
Lemma atomisation_nan_outcome (w : World) (i : Z) (dt t ke : float) :
  is_nan ke = true ->
  outcome (DropAtomisation.logWriting_body w i dt t ke) =
    if (pid w =? 0) && negb (can_open w 0%nat DropAtomisation.logFile)
    then inr (Return 1) else inr (AssertionFailed "ke > -1e-10").
Proof.
  intros Hn. unfold DropAtomisation.logWriting_body, fopen.
  rewrite (nan_fails ke Hn).
  destruct (pid w =? 0), (can_open w 0%nat DropAtomisation.logFile), (i =? 0);
    reflexivity.
Qed.

Lemma impact_nan_outcome (w : World) (i : Z) (dt t ke : float) :
  is_nan ke = true ->
  outcome (DropImpact.logWriting_body w i dt t ke) =
    if (pid w =? 0) && negb (can_open w 0%nat "log")
    then inr (Return 1) else inr (AssertionFailed "ke > -1e-10").
Proof.
  intros Hn. unfold DropImpact.logWriting_body, fopen.
  rewrite (nan_fails ke Hn).
  destruct (pid w =? 0), (can_open w 0%nat "log"), (i =? 0); reflexivity.
Qed.

(** C10, as the code has it.  Take any mesh, split among any number of
    workers, at whose cells the density [rho(f)] is not negative; it may be
    a NaN, as it is where [f] is.  When the cell measure
    [pow(Delta, dimension)] of drop atomisation is not negative either,
    every term of its reduction is a NaN or at least zero, and the energy is
    a NaN exactly when some term is.  When it is no NaN it is at least zero
    and [logWriting] does not fail its assertion [ke > -1e-10], at any step
    and on any rank.  When it is a NaN, [logWriting] fails the assertion at
    every step and on every rank, except that rank 0 returns 1 before it
    reaches the assertion when it cannot open its run log.  The same holds
    in drop impact when the radial coordinate [y] is not negative.  The
    density macro of the two-phase header is not negative, for every volume
    fraction, a NaN included, as soon as both phase densities are
    positive. *)
Theorem kinetic_energy_nonneg_unless_nan
        (rho : float -> float) (pow : float -> nat -> float)
        (w : World) (i : Z) (dt t : float) (cells : Mesh float) :
  (forall c, In c (cells_of cells) -> not_negative (rho (f c))) ->
  let N := binary64 rho pow in
  let term_a := DropAtomisation.ke_term N DropAtomisation.dimension in
  let term_i := DropImpact.ke_term N in
  let ke_a := DropAtomisation.kinetic_energy N DropAtomisation.dimension cells in
  let ke_i := DropImpact.kinetic_energy N cells in
  ((forall c, In c (cells_of cells) ->
              not_negative (pow (Delta c) DropAtomisation.dimension)) ->
   (forall c, In c (cells_of cells) -> is_nan (term_a c) = true \/ nonneg (term_a c)) /\
   (is_nan ke_a = true <->
    exists c, In c (cells_of cells) /\ is_nan (term_a c) = true) /\
   (is_nan ke_a = false ->
    nonneg ke_a /\
    forall expr,
      outcome (DropAtomisation.logWriting rho pow w i dt t cells)
      <> inr (AssertionFailed expr)) /\
   (is_nan ke_a = true ->
    outcome (DropAtomisation.logWriting rho pow w i dt t cells) =
      if (pid w =? 0) && negb (can_open w 0%nat DropAtomisation.logFile)
      then inr (Return 1) else inr (AssertionFailed "ke > -1e-10"))) /\
  ((forall c, In c (cells_of cells) -> not_negative (y c)) ->
   (forall c, In c (cells_of cells) -> is_nan (term_i c) = true \/ nonneg (term_i c)) /\
   (is_nan ke_i = true <->
    exists c, In c (cells_of cells) /\ is_nan (term_i c) = true) /\
   (is_nan ke_i = false ->
    nonneg ke_i /\
    forall expr,
      outcome (DropImpact.logWriting rho pow w i dt t cells)
      <> inr (AssertionFailed expr)) /\
   (is_nan ke_i = true ->
    outcome (DropImpact.logWriting rho pow w i dt t cells) =
      if (pid w =? 0) && negb (can_open w 0%nat "log")
      then inr (Return 1) else inr (AssertionFailed "ke > -1e-10"))) /\
  (forall rho1 rho2 x,
      (0 <? rho1)%float = true -> (0 <? rho2)%float = true ->
      not_negative (rho_two_phase rho1 rho2 x)).
Proof.
  intros Hrho N term_a term_i ke_a ke_i.
  refine (conj _ (conj _ rho_two_phase_not_negative)).
  - intros Hpow.
    assert (Ht : forall c, In c (cells_of cells) -> not_negative (term_a c)).
    { intros c Hc. apply atomisation_term_not_negative; auto. }
    destruct (mesh_sum_nan_iff rho pow term_a cells Ht) as [Hiff Hpos].
    refine (conj _ (conj Hiff (conj _ _))).
    + intros c Hc. destruct (is_nan (term_a c)) eqn:E; [now left | right].
      apply not_negative_nonneg; auto.
    + intros Hn. split; [now apply Hpos|].
      intros expr. rewrite atomisation_logWriting_unfold.
      apply atomisation_passes, nonneg_passes. now apply Hpos.
    + intros Hn. rewrite atomisation_logWriting_unfold.
      now apply atomisation_nan_outcome.
  - intros Hy.
    assert (Ht : forall c, In c (cells_of cells) -> not_negative (term_i c)).
    { intros c Hc. apply impact_term_not_negative; auto. }
    destruct (mesh_sum_nan_iff rho pow term_i cells Ht) as [Hiff Hpos].
    destruct (impact_logWriting_unfold rho pow w i dt t cells) as [_ Eo].
    refine (conj _ (conj Hiff (conj _ _))).
    + intros c Hc. destruct (is_nan (term_i c)) eqn:E; [now left | right].
      apply not_negative_nonneg; auto.
    + intros Hn. split; [now apply Hpos|].
      intros expr. rewrite Eo.
      apply impact_passes, nonneg_passes. now apply Hpos.
    + intros Hn. rewrite Eo. now apply impact_nan_outcome.
Qed.

(** A moving cell and a cell at rest on two workers, with the density macro
    of the two-phase header: the energy is at least zero. *)
Lemma kinetic_energy_nonneg_unless_nan_witness :
  nonneg (DropAtomisation.kinetic_energy
            (binary64 (rho_two_phase DropAtomisation.rho1 DropAtomisation.rho2) pow_mul)
            DropAtomisation.dimension
            (Combine (Worker [cell_moving]) (Worker [cell_at_rest]))) /\
  nonneg (DropImpact.kinetic_energy
            (binary64 (rho_two_phase DropImpact.rho1 DropImpact.rho2) pow_mul)
            (Combine (Worker [cell_moving]) (Worker [cell_at_rest]))).
Proof.
  assert (Hin : forall (P : Cell float -> Prop),
             P cell_moving -> P cell_at_rest ->
             forall c, In c [cell_moving; cell_at_rest] -> P c).
  { intros P H1 H2 c [<-|[<-|[]]]; assumption. }
  destruct (kinetic_energy_nonneg_unless_nan
              (rho_two_phase DropAtomisation.rho1 DropAtomisation.rho2) pow_mul
              rank0 0 0.1 0 (Combine (Worker [cell_moving]) (Worker [cell_at_rest]))
              (Hin _ eq_refl eq_refl)) as (Ha & _ & _).
  destruct (kinetic_energy_nonneg_unless_nan
              (rho_two_phase DropImpact.rho1 DropImpact.rho2) pow_mul
              rank0 0 0.1 0 (Combine (Worker [cell_moving]) (Worker [cell_at_rest]))
              (Hin _ eq_refl eq_refl)) as (_ & Hi & _).
  destruct (Ha (Hin _ eq_refl eq_refl)) as (_ & _ & Ha' & _).
  destruct (Hi (Hin _ eq_refl eq_refl)) as (_ & _ & Hi' & _).
  exact (conj (proj1 (Ha' eq_refl)) (proj1 (Hi' eq_refl))).
Defined.

(** C10 as stated fails on a NaN: with both phase densities positive and
    [y >= 0], a cell whose velocity is a NaN makes the energy a NaN whatever
    the density macro and [pow] return, and the assertion [ke > -1e-10]
    fails, in both cases. *)
Lemma nan_velocity_fails_assertion :
  (0 <? DropAtomisation.rho1)%float = true /\
  (0 <? DropAtomisation.rho2)%float = true /\
  (0 <? DropImpact.rho1)%float = true /\
  (0 <? DropImpact.rho2)%float = true /\
  nonneg (y cell_nan) /\
  (forall rho pow,
      outcome (DropAtomisation.logWriting rho pow rank0 0 0.1 0
                 (Worker [cell_at_rest; cell_nan]))
      = inr (AssertionFailed "ke > -1e-10")) /\
  (forall rho pow,
      outcome (DropImpact.logWriting rho pow rank0 0 0.1 0
                 (Worker [cell_at_rest; cell_nan]))
      = inr (AssertionFailed "ke > -1e-10")).
Proof.
  refine (conj eq_refl (conj eq_refl (conj eq_refl (conj eq_refl (conj eq_refl _))))).
  split; intros rho pow.
  - rewrite atomisation_logWriting_unfold.
    rewrite atomisation_nan_outcome; [reflexivity|].
    apply mesh_sum_nan. exists cell_nan. split; [right; now left|].
    unfold DropAtomisation.ke_term, sq. simpl.
    apply mul_nan_l, mul_nan_r. reflexivity.
  - destruct (impact_logWriting_unfold rho pow rank0 0 0.1 0
                (Worker [cell_at_rest; cell_nan])) as [_ Eo].
    rewrite Eo. rewrite impact_nan_outcome; [reflexivity|].
    apply mesh_sum_nan. exists cell_nan. split; [right; now left|].
    unfold DropImpact.ke_term, sq. simpl.
    apply mul_nan_l, mul_nan_r, mul_nan_r. reflexivity.
Qed.

(** ** The decision of the monitor on a computed energy *)

(** C1, as the code has it.  On rank 0, when the run log of the case and the
    file [log] can be opened, every step [i > 10] decides on the reduced
    energy as follows: above the upper bound it stops with the "blew up"
    reason; below the lower bound it stops with the "too small" reason; at
    or between the bounds it continues.  The bounds are 1e6 and 1e-6 in drop
    atomisation, 1e2 and 1e-8 in drop impact.  The energy is the one the
    loop computes, over any mesh and any number of workers; for the "too
    small" stop the densities and the cell measures are taken not to be
    negative, and such an energy is never below the tolerance of the
    assertion that precedes the bounds. *)
Theorem monitor_decides_by_bounds
        (rho : float -> float) (pow : float -> nat -> float)
        (w : World) (i : Z) (dt t : float) (cells : Mesh float) :
  pid w = 0 ->
  10 < i ->
  can_open w 1%nat "log" = true ->
  (can_open w 0%nat DropAtomisation.logFile = true ->
   let ke := DropAtomisation.kinetic_energy (binary64 rho pow)
               DropAtomisation.dimension cells in
   let r := DropAtomisation.logWriting rho pow w i dt t cells in
   ((1e6 <? ke)%float = true -> decides r (STOP_ABORT DropAtomisation.blew_up)) /\
   ((ke <? 1e-6)%float = true ->
    (forall c, In c (cells_of cells) ->
               not_negative (rho (f c)) /\
               not_negative (pow (Delta c) DropAtomisation.dimension)) ->
    decides r (STOP_ABORT DropAtomisation.too_small)) /\
   ((1e-6 <=? ke)%float = true -> (ke <=? 1e6)%float = true -> decides r CONTINUE)) /\
  (can_open w 0%nat "log" = true ->
   let ke := DropImpact.kinetic_energy (binary64 rho pow) cells in
   let r := DropImpact.logWriting rho pow w i dt t cells in
   ((1e2 <? ke)%float = true -> decides r (STOP_ABORT DropImpact.blew_up)) /\
   ((ke <? 1e-8)%float = true ->
    (forall c, In c (cells_of cells) ->
               not_negative (rho (f c)) /\ not_negative (y c)) ->
    decides r (STOP_ABORT DropImpact.too_small)) /\
   ((1e-8 <=? ke)%float = true -> (ke <=? 1e2)%float = true -> decides r CONTINUE)).
Proof.
  intros Hp Hi He.
  apply Z.eqb_eq in Hp. apply Z.ltb_lt in Hi as Hi'.
  assert (Hi0 : (i =? 0) = false) by (apply Z.eqb_neq; lia).
  split; intros Hl ke r.
  - subst r. rewrite atomisation_logWriting_unfold. fold ke.
    unfold DropAtomisation.logWriting_body, fopen.
    rewrite Hp, Hi', Hi0, He, Hl. cbv zeta. refine (conj _ (conj _ _)).
    + intros Hk. rewrite (above_passes 1e6 ke eq_refl Hk), Hk.
      cbn. tauto.
    + intros Hk Hm.
      assert (Hpos : is_nan ke = false -> nonneg ke).
      { apply mesh_sum_nan_iff. intros c Hc.
        apply atomisation_term_not_negative; now apply Hm. }
      rewrite (nonneg_passes ke (Hpos (ltb_not_nan _ _ Hk))).
      rewrite Hk, (below_not_above 1e-6 1e6 ke eq_refl Hk).
      cbn. tauto.
    + intros Hlo Hhi.
      rewrite (ltb_leb_trans (-1e-10) 1e-6 ke eq_refl Hlo).
      rewrite (leb_not_ltb _ _ Hlo), (leb_not_ltb _ _ Hhi).
      reflexivity.
  - destruct (impact_logWriting_unfold rho pow w i dt t cells) as [Et Eo].
    subst r. unfold decides. rewrite Et, Eo. fold ke.
    unfold DropImpact.logWriting_body, fopen.
    rewrite Hp, Hi', Hi0, He, Hl. cbv zeta. refine (conj _ (conj _ _)).
    + intros Hk. rewrite (above_passes 1e2 ke eq_refl Hk), Hk.
      cbn. tauto.
    + intros Hk Hm.
      assert (Hpos : is_nan ke = false -> nonneg ke).
      { apply mesh_sum_nan_iff. intros c Hc.
        apply impact_term_not_negative; now apply Hm. }
      rewrite (nonneg_passes ke (Hpos (ltb_not_nan _ _ Hk))).
      rewrite Hk, (below_not_above 1e-8 1e2 ke eq_refl Hk).
      cbn. tauto.
    + intros Hlo Hhi.
      rewrite (ltb_leb_trans (-1e-10) 1e-8 ke eq_refl Hlo).
      rewrite (leb_not_ltb _ _ Hlo), (leb_not_ltb _ _ Hhi).
      reflexivity.
Qed.

(** The three decisions at step 11 on rank 0, in both cases, on the energy
    of a fast cell, of a cell at rest and of a moving cell. *)
Lemma monitor_decides_by_bounds_witness :
  decides (DropAtomisation.logWriting
             (rho_two_phase DropAtomisation.rho1 DropAtomisation.rho2) pow_mul
             rank0 11 0.1 1.1 (Worker [cell_fast]))
          (STOP_ABORT DropAtomisation.blew_up) /\
  decides (DropAtomisation.logWriting
             (rho_two_phase DropAtomisation.rho1 DropAtomisation.rho2) pow_mul
             rank0 11 0.1 1.1 (Worker [cell_at_rest]))
          (STOP_ABORT DropAtomisation.too_small) /\
  decides (DropAtomisation.logWriting
             (rho_two_phase DropAtomisation.rho1 DropAtomisation.rho2) pow_mul
             rank0 11 0.1 1.1 (Worker [cell_moving])) CONTINUE /\
  decides (DropImpact.logWriting
             (rho_two_phase DropImpact.rho1 DropImpact.rho2) pow_mul
             rank0 11 0.1 1.1 (Worker [cell_fast]))
          (STOP_ABORT DropImpact.blew_up) /\
  decides (DropImpact.logWriting
             (rho_two_phase DropImpact.rho1 DropImpact.rho2) pow_mul
             rank0 11 0.1 1.1 (Worker [cell_at_rest]))
          (STOP_ABORT DropImpact.too_small) /\
  decides (DropImpact.logWriting
             (rho_two_phase DropImpact.rho1 DropImpact.rho2) pow_mul
             rank0 11 0.1 1.1 (Worker [cell_moving])) CONTINUE.
Proof.
  assert (Hin : forall (P : Cell float -> Prop) (c0 : Cell float),
             P c0 -> forall c, In c [c0] -> P c).
  { intros P c0 H c [<-|[]]. exact H. }
  pose proof (fun rho c0 =>
    monitor_decides_by_bounds rho pow_mul rank0 11 0.1 1.1 (Worker [c0])
      eq_refl eq_refl eq_refl) as H.
  destruct (H (rho_two_phase DropAtomisation.rho1 DropAtomisation.rho2) cell_fast)
    as [Ha1 _].
  destruct (H (rho_two_phase DropAtomisation.rho1 DropAtomisation.rho2) cell_at_rest)
    as [Ha2 _].
  destruct (H (rho_two_phase DropAtomisation.rho1 DropAtomisation.rho2) cell_moving)
    as [Ha3 _].
  destruct (H (rho_two_phase DropImpact.rho1 DropImpact.rho2) cell_fast) as [_ Hi1].
  destruct (H (rho_two_phase DropImpact.rho1 DropImpact.rho2) cell_at_rest)
    as [_ Hi2].
  destruct (H (rho_two_phase DropImpact.rho1 DropImpact.rho2) cell_moving)
    as [_ Hi3].
  destruct (Ha1 eq_refl) as (A1 & _ & _).
  destruct (Ha2 eq_refl) as (_ & A2 & _).
  destruct (Ha3 eq_refl) as (_ & _ & A3).
  destruct (Hi1 eq_refl) as (I1 & _ & _).
  destruct (Hi2 eq_refl) as (_ & I2 & _).
  destruct (Hi3 eq_refl) as (_ & _ & I3).
  exact (conj (A1 eq_refl)
        (conj (A2 eq_refl (Hin _ _ (conj eq_refl eq_refl)))
        (conj (A3 eq_refl eq_refl)
        (conj (I1 eq_refl)
        (conj (I2 eq_refl (Hin _ _ (conj eq_refl eq_refl)))
              (I3 eq_refl eq_refl)))))).
Defined.

(** C1 as stated fails off rank 0 and when a file cannot be opened.  At
    step 11, with two workers whose reduced energy is above the upper bound
    of both cases, the worker of rank 1 continues and announces no stop;
    rank 0, when it cannot open its run log, returns 1 after the message
    "Error opening log file" without ever giving the "blew up" reason; and
    rank 0, when it opens its run log but not the file [log] of the abort
    message, does not reach its [return 1]. *)
Lemma stop_abort_needs_rank_0_and_open_files :
  10 < 11 /\
  (1e6 <? DropAtomisation.kinetic_energy
            (binary64 (rho_two_phase DropAtomisation.rho1 DropAtomisation.rho2) pow_mul)
            DropAtomisation.dimension two_workers)%float = true /\
  (1e2 <? DropImpact.kinetic_energy
            (binary64 (rho_two_phase DropImpact.rho1 DropImpact.rho2) pow_mul)
            two_workers)%float = true /\
  decides (DropAtomisation.logWriting
             (rho_two_phase DropAtomisation.rho1 DropAtomisation.rho2) pow_mul
             rank1 11 0.1 1.1 two_workers) CONTINUE /\
  ~ decides (DropAtomisation.logWriting
               (rho_two_phase DropAtomisation.rho1 DropAtomisation.rho2) pow_mul
               rank1 11 0.1 1.1 two_workers)
            (STOP_ABORT DropAtomisation.blew_up) /\
  decides (DropImpact.logWriting
             (rho_two_phase DropImpact.rho1 DropImpact.rho2) pow_mul
             rank1 11 0.1 1.1 two_workers) CONTINUE /\
  ~ decides (DropImpact.logWriting
               (rho_two_phase DropImpact.rho1 DropImpact.rho2) pow_mul
               rank1 11 0.1 1.1 two_workers)
            (STOP_ABORT DropImpact.blew_up) /\
  ~ decides (DropAtomisation.logWriting
               (rho_two_phase DropAtomisation.rho1 DropAtomisation.rho2) pow_mul
               rank0_no_files 11 0.1 1.1 two_workers)
            (STOP_ABORT DropAtomisation.blew_up) /\
  ~ decides (DropImpact.logWriting
               (rho_two_phase DropImpact.rho1 DropImpact.rho2) pow_mul
               rank0_no_files 11 0.1 1.1 two_workers)
            (STOP_ABORT DropImpact.blew_up) /\
  ~ decides (DropAtomisation.logWriting
               (rho_two_phase DropAtomisation.rho1 DropAtomisation.rho2) pow_mul
               rank0_run_log_only 11 0.1 1.1 two_workers)
            (STOP_ABORT DropAtomisation.blew_up) /\
  ~ decides (DropImpact.logWriting
               (rho_two_phase DropImpact.rho1 DropImpact.rho2) pow_mul
               rank0_run_log_only 11 0.1 1.1 two_workers)
            (STOP_ABORT DropImpact.blew_up).
Proof.
  refine (conj eq_refl (conj eq_refl (conj eq_refl (conj eq_refl
           (conj _ (conj eq_refl (conj _ (conj _ (conj _ (conj _ _)))))))))).
  - intros [H _]. vm_compute in H. discriminate.
  - intros [H _]. vm_compute in H. discriminate.
  - intros [_ H]. vm_compute in H.
    repeat (destruct H as [H|H]; [discriminate H|]). exact H.
  - intros [_ H]. vm_compute in H.
    repeat (destruct H as [H|H]; [discriminate H|]). exact H.
  - intros [H _]. vm_compute in H. discriminate.
  - intros [H _]. vm_compute in H. discriminate.
Qed.

(** ** Checkpoint names *)

Section NameOrder.

Lemma ascii_compare_lt_trans (a b c : ascii) :
  Ascii.compare a b = Lt -> Ascii.compare b c = Lt -> Ascii.compare a c = Lt.
Proof.
  unfold Ascii.compare. rewrite !N.compare_lt_iff. apply N.lt_trans.
Qed.

Lemma string_compare_lt_trans (a : string) :
  forall b c,
    String.compare a b = Lt -> String.compare b c = Lt -> String.compare a c = Lt.
Proof.
  induction a as [|x a IH]; intros [|y b] [|z c]; simpl; try discriminate; auto.
  destruct (Ascii.compare x y) eqn:Exy; try discriminate;
    destruct (Ascii.compare y z) eqn:Eyz; try discriminate; intros H1 H2.
  - apply Ascii.compare_eq_iff in Exy, Eyz. subst.
    replace (Ascii.compare z z) with Eq; [now apply IH with b|].
    unfold Ascii.compare. now rewrite N.compare_refl.
  - apply Ascii.compare_eq_iff in Exy. subst. now rewrite Eyz.
  - apply Ascii.compare_eq_iff in Eyz. subst. now rewrite Exy.
  - now rewrite (ascii_compare_lt_trans x y z).
Qed.

Lemma ltb_compare (a b : string) : String.ltb a b = true <-> String.compare a b = Lt.
Proof. unfold String.ltb. destruct (String.compare a b); intuition discriminate. Qed.

Lemma lex_lt_trans (a b c : string) : lex_lt a b -> lex_lt b c -> lex_lt a c.
Proof. unfold lex_lt. rewrite !ltb_compare. apply string_compare_lt_trans. Qed.

Lemma shortlex_lt_trans (a b c : string) :
  shortlex_lt a b -> shortlex_lt b c -> shortlex_lt a c.
Proof.
  unfold shortlex_lt, shortlexb. intros H1 H2.
  apply orb_true_iff in H1, H2. apply orb_true_iff.
  rewrite !andb_true_iff, !Nat.ltb_lt, !Nat.eqb_eq in *.
  destruct H1 as [H1|[E1 H1]], H2 as [H2|[E2 H2]].
  - left. lia.
  - left. lia.
  - left. lia.
  - right. split; [lia|]. now apply lex_lt_trans with b.
Qed.

Lemma shortlex_same_length (a b : string) : shortlex_lt a b -> lex_lt_same_length a b.
Proof.
  unfold shortlex_lt, shortlexb, lex_lt_same_length. intros H E.
  apply orb_true_iff in H. rewrite andb_true_iff, Nat.ltb_lt in H.
  destruct H as [H|[_ H]]; [lia | exact H].
Qed.

Lemma string_compare_refl (a : string) : String.compare a a = Eq.
Proof.
  induction a as [|x a IH]; simpl; [reflexivity|].
  unfold Ascii.compare. now rewrite N.compare_refl.
Qed.

Lemma lex_lt_irrefl (a : string) : ~ lex_lt a a.
Proof.
  unfold lex_lt. rewrite ltb_compare, string_compare_refl. discriminate.
Qed.

Lemma shortlex_lt_irrefl (a : string) : ~ shortlex_lt a a.
Proof.
  unfold shortlex_lt, shortlexb. rewrite Nat.ltb_irrefl, Nat.eqb_refl. simpl.
  apply lex_lt_irrefl.
Qed.

Lemma increasingb_sorted (r : string -> string -> bool) (l : list string) :
  increasingb r l = true -> Sorted (fun a b => r a b = true) l.
Proof.
  induction l as [|x [|y l] IH]; intros H.
  - constructor.
  - repeat constructor.
  - simpl in H. apply andb_true_iff in H as [Hxy Hl].
    constructor; [now apply IH | now constructor].
Qed.

Lemma increasingb_strongly_sorted (r : string -> string -> bool) (l : list string) :
  (forall a b c, r a b = true -> r b c = true -> r a c = true) ->
  increasingb r l = true ->
  StronglySorted (fun a b => r a b = true) l.
Proof.
  intros Htrans H. apply Sorted_StronglySorted.
  - intros a b c. apply Htrans.
  - now apply increasingb_sorted.
Qed.

Lemma strongly_sorted_weaken (R S : string -> string -> Prop) (l : list string) :
  (forall a b, R a b -> S a b) -> StronglySorted R l -> StronglySorted S l.
Proof.
  intros HRS. induction 1 as [|x l Hl IH Hx]; constructor; auto.
  eapply Forall_impl; [|exact Hx]. auto.
Qed.

Lemma strongly_sorted_nodup (R : string -> string -> Prop) (l : list string) :
  (forall a, ~ R a a) -> StronglySorted R l -> NoDup l.
Proof.
  intros Hirr. induction 1 as [|x l Hl IH Hx]; constructor; auto.
  intros Hin. rewrite Forall_forall in Hx. exact (Hirr x (Hx x Hin)).
Qed.

Lemma strongly_sorted_app_r (R : string -> string -> Prop) (l1 l2 : list string) :
  StronglySorted R (l1 ++ l2) -> StronglySorted R l2.
Proof.
  induction l1 as [|x l1 IH]; simpl; intros H; [assumption|].
  inversion H; subst. now apply IH.
Qed.

(** Once [t <= tmax] has failed, more fuel adds no event time. *)
Lemma event_times_stable (tsnap tmax : float) (n : nat) :
  forall t m,
    (List.length (event_times n t tsnap tmax) < n)%nat ->
    (n <= m)%nat ->
    event_times m t tsnap tmax = event_times n t tsnap tmax.
Proof.
  induction n as [|n IH]; intros t m Hlen Hm; [inversion Hlen|].
  destruct m as [|m]; [lia|]. simpl in *.
  destruct (t <=? tmax)%float; [|reflexivity].
  simpl in Hlen. f_equal. apply IH; lia.
Qed.

End NameOrder.

(* C6 *)
(** C6, as the code has it.  [writingFiles] writes the restart file and then
    a file named [intermediate/snapshot-] followed by [t] printed with
    [%5.4f].  The event times [0, 0.1, 0.2, ...] of drop atomisation number
    2001 and those of drop impact 30, whatever further fuel is given.  Over
    each schedule the names are pairwise distinct.  They are strictly
    increasing in lexicographic order over the whole drop impact schedule,
    also when it is continued to the nominal time 3.0; over the drop
    atomisation schedule they are strictly increasing in length-then-
    lexicographic order, hence in lexicographic order among names of equal
    length only. *)
Theorem snapshot_names_of_schedule (t : float) :
  DropAtomisation.writingFiles t =
    ([Dump "restart"; Dump ("intermediate/snapshot-" ++ Printf.format_5_4f t)%string],
     inl tt) /\
  DropImpact.writingFiles t =
    ([Dump "dump"; Dump ("intermediate/snapshot-" ++ Printf.format_5_4f t)%string],
     inl tt) /\
  (forall fuel, (2002 <= fuel)%nat ->
                DropAtomisation.writingFiles_times fuel = atomisation_times) /\
  (forall fuel, (32 <= fuel)%nat ->
                DropImpact.writingFiles_times fuel = impact_times) /\
  List.length atomisation_times = 2001%nat /\
  List.length impact_times = 30%nat /\
  NoDup atomisation_names /\
  NoDup impact_names /\
  StronglySorted lex_lt impact_names /\
  StronglySorted lex_lt (map DropImpact.nameOut (nominal_times 31)) /\
  StronglySorted shortlex_lt atomisation_names /\
  StronglySorted lex_lt_same_length atomisation_names /\
  map DropAtomisation.nameOut (nominal_times 2001) = atomisation_names.
Proof.
  assert (Ha : StronglySorted shortlex_lt atomisation_names).
  { apply (increasingb_strongly_sorted shortlexb); [exact shortlex_lt_trans|].
    vm_compute. reflexivity. }
  assert (Hi : StronglySorted lex_lt impact_names).
  { apply (increasingb_strongly_sorted String.ltb); [exact lex_lt_trans|].
    vm_compute. reflexivity. }
  assert (La : List.length atomisation_times = 2001%nat) by (vm_compute; reflexivity).
  assert (Li : List.length impact_times = 30%nat) by (vm_compute; reflexivity).
  refine (conj eq_refl (conj eq_refl _)).
  refine (conj _ (conj _ (conj La (conj Li _)))).
  - intros fuel Hf. unfold DropAtomisation.writingFiles_times.
    apply event_times_stable; [|exact Hf].
    change (List.length atomisation_times < 2002)%nat. rewrite La. lia.
  - intros fuel Hf. unfold DropImpact.writingFiles_times.
    apply event_times_stable; [|exact Hf].
    change (List.length impact_times < 32)%nat. rewrite Li. lia.
  - refine (conj _ (conj _ (conj Hi (conj _ (conj Ha (conj _ _)))))).
    + exact (strongly_sorted_nodup _ _ shortlex_lt_irrefl Ha).
    + exact (strongly_sorted_nodup _ _ lex_lt_irrefl Hi).
    + apply (increasingb_strongly_sorted String.ltb); [exact lex_lt_trans|].
      vm_compute. reflexivity.
    + exact (strongly_sorted_weaken _ _ _ shortlex_same_length Ha).
    + vm_compute. reflexivity.
Qed.

(** C6 as stated fails in drop atomisation: the name written at the 100th
    event time, 9.9, sorts after the name written at the next one, 10.0, so
    the names of the schedule are not increasing in lexicographic order. *)
Lemma atomisation_names_not_lexicographic :
  nth 99 atomisation_names "" = "intermediate/snapshot-9.9000" /\
  nth 100 atomisation_names "" = "intermediate/snapshot-10.0000" /\
  lex_lt (nth 100 atomisation_names "") (nth 99 atomisation_names "") /\
  ~ StronglySorted lex_lt atomisation_names.
Proof.
  assert (E : atomisation_names =
              firstn 99 atomisation_names ++
              "intermediate/snapshot-9.9000" :: "intermediate/snapshot-10.0000" ::
              skipn 101 atomisation_names).
  { vm_compute. reflexivity. }
  refine (conj _ (conj _ (conj _ _))).
  - vm_compute. reflexivity.
  - vm_compute. reflexivity.
  - vm_compute. reflexivity.
  - intros H. rewrite E in H. apply strongly_sorted_app_r in H.
    apply StronglySorted_inv in H as [_ Hx].
    apply Forall_inv in Hx. vm_compute in Hx. discriminate.
Qed.

(** ** The files of [logWriting] *)

Section FileDiscipline.

Lemma stream_run_app (st : FileState) (a b : list Effect) :
  stream_run st (a ++ b) =
  match stream_run st a with
  | Some st' => stream_run st' b
  | None => None
  end.
Proof.
  revert st. induction a as [|e a IH]; intros st; simpl; [reflexivity|].
  destruct (stream_step st e); [apply IH | reflexivity].
Qed.

(** The case analysis of a step of [logWriting]: the rank, the step number,
    the two calls of [fopen] and the comparisons of the energy. *)
Ltac step_cases w i ke :=
  destruct (pid w =? 0);
  destruct (i =? 0);
  destruct (10 <? i);
  try destruct (can_open w 0%nat _);
  try destruct (can_open w 1%nat _);
  destruct (-1e-10 <? ke)%float;
  try destruct (1e6 <? ke)%float;
  try destruct (ke <? 1e-6)%float;
  try destruct (1e2 <? ke)%float;
  try destruct (ke <? 1e-8)%float.

Lemma atomisation_step_discipline (w : World) (i : Z) (dt t ke : float) :
  stream_run Closed (trace (DropAtomisation.logWriting_body w i dt t ke)) = Some Closed.
Proof.
  unfold DropAtomisation.logWriting_body, fopen.
  step_cases w i ke; reflexivity.
Qed.

Lemma impact_step_discipline (w : World) (i : Z) (dt t ke : float) :
  stream_run Closed (trace (DropImpact.logWriting_body w i dt t ke)) = Some Closed.
Proof.
  unfold DropImpact.logWriting_body, fopen.
  step_cases w i ke; reflexivity.
Qed.

Lemma run_discipline
      (body : World -> Z -> float -> float -> float -> Ev unit)
      (w : World) (data : Z -> StepData) :
  (forall i dt t ke, stream_run Closed (trace (body w i dt t ke)) = Some Closed) ->
  forall steps i, stream_run Closed (trace (run body w data steps i)) = Some Closed.
Proof.
  intros Hb. induction steps as [|n IH]; intros i; simpl; [reflexivity|].
  rewrite trace_bind, stream_run_app, Hb.
  destruct (outcome _) as [[]|e]; [apply IH | reflexivity].
Qed.

End FileDiscipline.

(** X1.  [logWriting] keeps its files in order on every rank, at every step,
    for every energy, whether or not the files can be opened and whichever
    way the callback is left: a file is opened only when none is open, it is
    written only while open, it is flushed and then closed before the next
    one is opened, the checkpoint of an abort is written with no file open,
    and no file is open when the callback is left.  The same holds over a
    run of any number of steps. *)
Theorem log_files_flushed_and_closed
        (rho : float -> float) (pow : float -> nat -> float)
        (w : World) (data : Z -> StepData) (steps : nat)
        (i : Z) (dt t : float) (cells : Mesh float) :
  stream_run Closed (trace (DropAtomisation.logWriting rho pow w i dt t cells)) =
    Some Closed /\
  stream_run Closed (trace (DropImpact.logWriting rho pow w i dt t cells)) =
    Some Closed /\
  stream_run Closed (trace (run DropAtomisation.logWriting_body w data steps i)) =
    Some Closed /\
  stream_run Closed (trace (run DropImpact.logWriting_body w data steps i)) =
    Some Closed.
Proof.
  refine (conj _ (conj _ (conj _ _))).
  - rewrite atomisation_logWriting_unfold. apply atomisation_step_discipline.
  - destruct (impact_logWriting_unfold rho pow w i dt t cells) as [E _].
    rewrite E. simpl. apply impact_step_discipline.
  - apply run_discipline. intros. apply atomisation_step_discipline.
  - apply run_discipline. intros. apply impact_step_discipline.
Qed.

(** X2.  On a rank other than 0 [logWriting] touches no file: drop
    atomisation does nothing observable and drop impact writes only its
    status line.  Such a rank never returns 1; it continues unless the
    assertion on the energy fails, also at steps and energies for which
    rank 0 stops the run. *)
Theorem other_ranks_touch_no_file
        (rho : float -> float) (pow : float -> nat -> float)
        (w : World) (i : Z) (dt t : float) (cells : Mesh float) :
  pid w <> 0 ->
  let ka := DropAtomisation.kinetic_energy (binary64 rho pow)
              DropAtomisation.dimension cells in
  let ki := DropImpact.kinetic_energy (binary64 rho pow) cells in
  DropAtomisation.logWriting rho pow w i dt t cells =
    ([], if (-1e-10 <? ka)%float then inl tt
         else inr (AssertionFailed "ke > -1e-10")) /\
  DropImpact.logWriting rho pow w i dt t cells =
    ([Fprintf ferr "i %d, t %g\n" [IntArg i; DblArg t]],
     if (-1e-10 <? ki)%float then inl tt
     else inr (AssertionFailed "ke > -1e-10")).
Proof.
  intros Hp ka ki. apply Z.eqb_neq in Hp.
  unfold DropAtomisation.logWriting, DropImpact.logWriting,
    DropAtomisation.logWriting_body, DropImpact.logWriting_body.
  fold ka ki. rewrite Hp, andb_false_r.
  destruct (-1e-10 <? ka)%float, (-1e-10 <? ki)%float; split; reflexivity.
Qed.

(** Rank 1 at step 11 with one cell at rest: rank 0 would stop the run for
    an energy that is too small. *)
Lemma other_ranks_touch_no_file_witness :
  DropAtomisation.logWriting (rho_two_phase 830 1) pow_mul rank1 11 0.1 1.1
                             (Worker [cell_at_rest]) = ([], inl tt) /\
  DropImpact.logWriting (rho_two_phase 1 1e-3) pow_mul rank1 11 0.1 1.1
                        (Worker [cell_at_rest]) =
    ([Fprintf ferr "i %d, t %g\n" [IntArg 11; DblArg 1.1]], inl tt).
Proof.
  split.
  - apply (other_ranks_touch_no_file (rho_two_phase 830 1) pow_mul rank1 11 0.1 1.1
             (Worker [cell_at_rest])). discriminate.
  - apply (other_ranks_touch_no_file (rho_two_phase 1 1e-3) pow_mul rank1 11 0.1 1.1
             (Worker [cell_at_rest])). discriminate.
Defined.

(** X3.  On rank 0, when the log files can be opened, the status stream
    mirrors the files: the lines [logWriting] writes to [ferr] are, in
    order, the lines it writes to its files, the line of column names
    without its last column [rM]; drop impact puts its status line in
    front.  This holds at the first step, at later steps and on an abort. *)
Theorem status_stream_mirrors_files
        (rho : float -> float) (pow : float -> nat -> float)
        (w : World) (i : Z) (dt t : float) (cells : Mesh float) :
  pid w = 0 ->
  can_open w 1%nat "log" = true ->
  (can_open w 0%nat DropAtomisation.logFile = true ->
   let tr := trace (DropAtomisation.logWriting rho pow w i dt t cells) in
   ferr_lines tr = map status_form (file_lines tr)) /\
  (can_open w 0%nat "log" = true ->
   let tr := trace (DropImpact.logWriting rho pow w i dt t cells) in
   ferr_lines tr =
     ("i %d, t %g\n", [IntArg i; DblArg t]) :: map status_form (file_lines tr)).
Proof.
  intros Hp H1. apply Z.eqb_eq in Hp.
  split; intros H0 tr; subst tr.
  - rewrite atomisation_logWriting_unfold.
    generalize (DropAtomisation.kinetic_energy (binary64 rho pow)
                  DropAtomisation.dimension cells) as ke. intros ke.
    unfold DropAtomisation.logWriting_body, fopen. rewrite Hp, H0, H1.
    destruct (i =? 0), (10 <? i), (-1e-10 <? ke)%float,
      (1e6 <? ke)%float, (ke <? 1e-6)%float; reflexivity.
  - destruct (impact_logWriting_unfold rho pow w i dt t cells) as [E _].
    rewrite E. clear E.
    generalize (DropImpact.kinetic_energy (binary64 rho pow) cells) as ke. intros ke.
    unfold DropImpact.logWriting_body, fopen. rewrite Hp, H0, H1.
    destruct (i =? 0), (10 <? i), (-1e-10 <? ke)%float,
      (1e2 <? ke)%float, (ke <? 1e-8)%float; reflexivity.
Qed.

(** Rank 0 at step 0 and at an abort of step 11, with one cell at rest. *)
Lemma status_stream_mirrors_files_witness :
  (let tr := trace (DropAtomisation.logWriting (rho_two_phase 830 1) pow_mul
                      rank0 0 0.1 0 (Worker [cell_at_rest])) in
   ferr_lines tr = map status_form (file_lines tr)) /\
  (let tr := trace (DropImpact.logWriting (rho_two_phase 1 1e-3) pow_mul
                      rank0 11 0.1 1.1 (Worker [cell_at_rest])) in
   ferr_lines tr =
     ("i %d, t %g\n", [IntArg 11; DblArg 1.1]) :: map status_form (file_lines tr)).
Proof.
  split.
  - apply (status_stream_mirrors_files (rho_two_phase 830 1) pow_mul rank0 0 0.1 0
             (Worker [cell_at_rest]) eq_refl eq_refl). reflexivity.
  - apply (status_stream_mirrors_files (rho_two_phase 1 1e-3) pow_mul rank0 11 0.1 1.1
             (Worker [cell_at_rest]) eq_refl eq_refl). reflexivity.
Defined.

(** ** The end of a run and its restart *)

(** X4.  On rank 0 the event [end] writes one line to the status stream,
    touches no file and never fails.  In drop atomisation that line is the
    header line [logWriting] wrote to the status stream at step 0; in drop
    impact it carries the first two of the three fields of that header, the
    level and [Oh]. *)
Theorem end_summary_repeats_header (w : World) (dt t ke : float) :
  pid w = 0 ->
  (can_open w 0%nat DropAtomisation.logFile = true ->
   ferr_lines (trace (DropAtomisation.end_event w)) =
     firstn 1 (ferr_lines (trace (DropAtomisation.logWriting_body w 0 dt t ke)))) /\
  (can_open w 0%nat "log" = true ->
   exists args rest,
     ferr_lines (trace (DropImpact.logWriting_body w 0 dt t ke)) =
       ("Level %d, Oh %2.1e, Oha %2.1e\n", args) :: rest /\
     ferr_lines (trace (DropImpact.end_event w)) =
       [("Level %d, Oh %2.1e\n", firstn 2 args)]) /\
  filter touches_files (trace (DropAtomisation.end_event w)) = [] /\
  filter touches_files (trace (DropImpact.end_event w)) = [] /\
  outcome (DropAtomisation.end_event w) = inl tt /\
  outcome (DropImpact.end_event w) = inl tt.
Proof.
  intros Hp. apply Z.eqb_eq in Hp.
  unfold DropAtomisation.end_event, DropImpact.end_event,
    DropAtomisation.logWriting_body, DropImpact.logWriting_body, fopen.
  rewrite Hp. change (0 =? 0) with true. cbv iota.
  refine (conj _ (conj _ (conj eq_refl (conj eq_refl (conj eq_refl eq_refl))))).
  - intros H0. rewrite H0.
    destruct (-1e-10 <? ke)%float; reflexivity.
  - intros H0. rewrite H0.
    eexists. eexists. split.
    + destruct (-1e-10 <? ke)%float; reflexivity.
    + reflexivity.
Qed.

(** Rank 0 with every file openable. *)
Lemma end_summary_repeats_header_witness :
  ferr_lines (trace (DropAtomisation.end_event rank0)) =
    firstn 1 (ferr_lines (trace (DropAtomisation.logWriting_body rank0 0 0.1 0 1))) /\
  outcome (DropImpact.end_event rank0) = inl tt.
Proof.
  destruct (end_summary_repeats_header rank0 0.1 0 1 eq_refl)
    as (Ha & _ & _ & _ & _ & Hi).
  exact (conj (Ha eq_refl) Hi).
Defined.

Lemma atomisation_step_dumps (w : World) (i : Z) (dt t ke : float) :
  Forall (eq DropAtomisation.dumpFile)
         (dumped_files (trace (DropAtomisation.logWriting_body w i dt t ke))).
Proof.
  unfold DropAtomisation.logWriting_body, fopen.
  destruct (pid w =? 0), (i =? 0), (10 <? i);
  try destruct (can_open w 0%nat _);
  try destruct (can_open w 1%nat _);
  destruct (-1e-10 <? ke)%float;
  try destruct (1e6 <? ke)%float;
  try destruct (ke <? 1e-6)%float; cbn; repeat constructor.
Qed.

Lemma impact_step_dumps (w : World) (i : Z) (dt t ke : float) :
  Forall (eq DropImpact.dumpFile)
         (dumped_files (trace (DropImpact.logWriting_body w i dt t ke))).
Proof.
  unfold DropImpact.logWriting_body, fopen.
  destruct (pid w =? 0), (i =? 0), (10 <? i);
  try destruct (can_open w 0%nat _);
  try destruct (can_open w 1%nat _);
  destruct (-1e-10 <? ke)%float;
  try destruct (1e2 <? ke)%float;
  try destruct (ke <? 1e-8)%float; cbn; repeat constructor.
Qed.

(** X5.  The file the event [init] restores from is the file [writingFiles]
    writes first at every event time and the only checkpoint [logWriting]
    ever writes, and no snapshot name equals it: a run that was stopped or
    aborted restarts from its latest state.  When the restore succeeds
    [init] makes no further call, so the initial drop is not laid over the
    restored state; when it fails [init] refines the mesh and sets the
    volume fraction, and in drop impact the velocity, in that order. *)
Theorem restart_file_round_trip
        (can_restore : string -> bool) (w : World) (i : Z) (dt t ke : float) :
  (exists name,
      restored_files (DropAtomisation.init can_restore) = [name] /\
      hd_error (dumped_files (trace (DropAtomisation.writingFiles t))) = Some name /\
      Forall (eq name)
             (dumped_files (trace (DropAtomisation.logWriting_body w i dt t ke))) /\
      DropAtomisation.nameOut t <> name /\
      (can_restore name = true ->
       DropAtomisation.init can_restore = [Restore name true]) /\
      (can_restore name = false ->
       DropAtomisation.init can_restore =
         [Restore name false;
          Refine DropAtomisation.refine_cond;
          Fraction s_f DropAtomisation.drop_shape])) /\
  (exists name,
      restored_files (DropImpact.init can_restore) = [name] /\
      hd_error (dumped_files (trace (DropImpact.writingFiles t))) = Some name /\
      Forall (eq name)
             (dumped_files (trace (DropImpact.logWriting_body w i dt t ke))) /\
      DropImpact.nameOut t <> name /\
      (can_restore name = true ->
       DropImpact.init can_restore = [Restore name true]) /\
      (can_restore name = false ->
       DropImpact.init can_restore =
         [Restore name false;
          Refine DropImpact.refine_cond;
          Fraction s_f DropImpact.drop_shape;
          Foreach DropImpact.init_velocity])).
Proof.
  split.
  - exists DropAtomisation.dumpFile. unfold DropAtomisation.init.
    refine (conj _ (conj eq_refl (conj (atomisation_step_dumps w i dt t ke)
             (conj _ (conj _ _))))).
    + destruct (can_restore _); reflexivity.
    + discriminate.
    + intros H. rewrite H. reflexivity.
    + intros H. rewrite H. reflexivity.
  - exists DropImpact.dumpFile. unfold DropImpact.init.
    refine (conj _ (conj eq_refl (conj (impact_step_dumps w i dt t ke)
             (conj _ (conj _ _))))).
    + destruct (can_restore _); reflexivity.
    + discriminate.
    + intros H. rewrite H. reflexivity.
    + intros H. rewrite H. reflexivity.
Qed.

(** X6.  [main] creates one directory before it calls [run], and every
    snapshot [writingFiles] writes, at whatever time, is named inside that
    directory; the restart file written beside it is not. *)
Theorem snapshots_go_to_created_directory (dimension : nat) (t : float) :
  (exists dir,
      made_directories (before_run (DropAtomisation.main dimension)) = [dir] /\
      In Run (DropAtomisation.main dimension) /\
      String.prefix (dir ++ "/") (DropAtomisation.nameOut t) = true /\
      dumped_files (trace (DropAtomisation.writingFiles t)) =
        [DropAtomisation.dumpFile; DropAtomisation.nameOut t] /\
      String.prefix (dir ++ "/") DropAtomisation.dumpFile = false) /\
  (exists dir,
      made_directories (before_run DropImpact.main) = [dir] /\
      In Run DropImpact.main /\
      String.prefix (dir ++ "/") (DropImpact.nameOut t) = true /\
      dumped_files (trace (DropImpact.writingFiles t)) =
        [DropImpact.dumpFile; DropImpact.nameOut t] /\
      String.prefix (dir ++ "/") DropImpact.dumpFile = false).
Proof.
  split; exists "intermediate".
  - unfold DropAtomisation.main. destruct (Nat.eqb dimension 3);
      (refine (conj eq_refl (conj _ (conj eq_refl (conj eq_refl eq_refl))));
       simpl; tauto).
  - refine (conj eq_refl (conj _ (conj eq_refl (conj eq_refl eq_refl)))).
    simpl; tauto.
Qed.

(** ** The initial condition *)

Section InitialCondition.

Lemma SFmul_opp_opp (a : spec_float) : SF64mul (SFopp a) (SFopp a) = SF64mul a a.
Proof.
  destruct a as [s|s| |s m e]; simpl; try reflexivity;
    destruct s; reflexivity.
Qed.

(** A square does not see the sign of its argument, exactly. *)
Lemma mul_opp_opp (a : float) : (- a * - a = a * a)%float.
Proof.
  apply Prim2SF_inj. rewrite !mul_spec, !opp_spec. apply SFmul_opp_opp.
Qed.

Lemma SFnonpos_same_sign (a : spec_float) :
  a <> S754_nan -> same_sign true a -> SFleb a (S754_zero false) = true.
Proof.
  destruct a as [s|s| |s m e]; simpl; intros H1 H2; subst; try reflexivity.
  congruence.
Qed.

Lemma SFmul_opp_one_nonpos (a : spec_float) :
  SFnonneg a -> SFleb (SF64mul (SFopp a) (Prim2SF 1.0)) (S754_zero false) = true.
Proof.
  intros Ha. apply SFnonneg_inv in Ha.
  destruct a as [s|s| |s m e]; simpl in *; subst; try contradiction.
  - destruct s; reflexivity.
  - reflexivity.
  - apply SFnonpos_same_sign.
    + apply binary_round_aux_not_nan. lia.
    + apply (binary_round_aux_sign true).
Qed.

Lemma SFmul_zero_one (s : bool) :
  SFeqb (SF64mul (SFopp (S754_zero s)) (Prim2SF 1.0)) (S754_zero false) = true.
Proof. destruct s; reflexivity. Qed.

(** [x == 0] holds of the two zeros only. *)
Lemma is_zero_spec (x : float) : is_zero x <-> exists s, Prim2SF x = S754_zero s.
Proof.
  unfold is_zero. rewrite eqb_spec. change (Prim2SF 0) with (S754_zero false).
  split.
  - destruct (Prim2SF x) as [s|s| |s m e]; try (destruct s; discriminate).
    + intros _. now exists s.
    + discriminate.
  - intros [s E]. rewrite E. destruct s; reflexivity.
Qed.

End InitialCondition.

(** X7.  The initial drop is mirror-symmetric about the [x] axis exactly, in
    double arithmetic and not only up to rounding: changing the sign of [y]
    or of [z] changes neither the value of [R2], nor the level-set function
    handed to [fraction], nor the cells [refine] selects, at any level and
    for any coordinates, NaN and infinities included. *)
Theorem initial_drop_mirror_symmetric (x y z : float) (level : Z) :
  DropAtomisation.R2 x (- y) z = DropAtomisation.R2 x y z /\
  DropAtomisation.R2 x y (- z) = DropAtomisation.R2 x y z /\
  DropAtomisation.drop_shape x (- y) (- z) = DropAtomisation.drop_shape x y z /\
  DropAtomisation.refine_cond x (- y) (- z) level =
    DropAtomisation.refine_cond x y z level /\
  DropImpact.R2 x (- y) z = DropImpact.R2 x y z /\
  DropImpact.R2 x y (- z) = DropImpact.R2 x y z /\
  DropImpact.drop_shape x (- y) (- z) = DropImpact.drop_shape x y z /\
  DropImpact.refine_cond x (- y) (- z) level = DropImpact.refine_cond x y z level.
Proof.
  unfold DropAtomisation.refine_cond, DropAtomisation.drop_shape, DropAtomisation.R2,
    DropImpact.refine_cond, DropImpact.drop_shape, DropImpact.R2.
  rewrite !mul_opp_opp. repeat apply conj; reflexivity.
Qed.

(** X8.  The velocity loop of drop impact's [init] changes [u.x] only.  In a
    cell whose volume fraction is not negative the new [u.x] is not
    positive, and it is zero where the volume fraction is zero: the liquid
    starts moving towards negative [x] and the gas starts at rest. *)
Theorem initial_velocity_not_positive (c : Cell float) :
  nonneg (f c) ->
  let c' := DropImpact.init_velocity c in
  (u_x c' <=? 0)%float = true /\
  (is_zero (f c) -> is_zero (u_x c')) /\
  f c' = f c /\ u_y c' = u_y c /\ u_z c' = u_z c /\ y c' = y c /\ Delta c' = Delta c.
Proof.
  intros Hf c'. subst c'. unfold DropImpact.init_velocity. cbn [u_x f u_y u_z y Delta].
  refine (conj _ (conj _ (conj eq_refl (conj eq_refl (conj eq_refl (conj eq_refl eq_refl)))))).
  - rewrite leb_spec, mul_spec, opp_spec. apply SFmul_opp_one_nonpos.
    now apply nonneg_spec.
  - intros Hz. apply is_zero_spec in Hz as [s E].
    unfold is_zero. rewrite eqb_spec, mul_spec, opp_spec, E. apply SFmul_zero_one.
Qed.

(** A cell of liquid. *)
Lemma initial_velocity_not_positive_witness :
  (u_x (DropImpact.init_velocity cell_moving) <=? 0)%float = true.
Proof.
  apply (initial_velocity_not_positive cell_moving). reflexivity.
Defined.

(** X9.  The grid levels of the three places that set them agree: the grid
    [main] starts [run] with lies between the minimum level 4 and the
    maximum level that [adapt] hands to [adapt_wavelet], the refinement of
    [init] selects no cell at or above that maximum level, and the field
    list and the tolerance list of [adapt_wavelet] have one length, in two
    and in three dimensions. *)
Theorem grid_levels_consistent (dimension : nat) (i : Z) (x y z : float) (level : Z) :
  (exists n slist tol maxlevel minlevel,
      In (InitGrid n) (before_run (DropAtomisation.main dimension)) /\
      In (AdaptWavelet slist tol maxlevel minlevel)
         (trace (DropAtomisation.adapt dimension i)) /\
      List.length slist = List.length tol /\
      2 ^ minlevel <= n <= 2 ^ maxlevel /\
      (DropAtomisation.refine_cond x y z level = true -> level < maxlevel)) /\
  (exists n slist tol maxlevel minlevel,
      In (InitGrid n) (before_run DropImpact.main) /\
      In (AdaptWavelet slist tol maxlevel minlevel) (trace (DropImpact.adapt i)) /\
      List.length slist = List.length tol /\
      2 ^ minlevel <= n <= 2 ^ maxlevel /\
      (DropImpact.refine_cond x y z level = true -> level < maxlevel)).
Proof.
  split.
  - exists 64, ([s_f; s_KAPPA; s_u_x; s_u_y] ++ (if Nat.eqb dimension 3 then [s_u_z] else [])),
      ([DropAtomisation.fErr; DropAtomisation.KErr; DropAtomisation.VelErr;
        DropAtomisation.VelErr]
         ++ (if Nat.eqb dimension 3 then [DropAtomisation.VelErr] else [])),
      DropAtomisation.MAXlevel, 4.
    refine (conj _ (conj _ (conj _ (conj _ _)))).
    + unfold DropAtomisation.main. destruct (Nat.eqb dimension 3); simpl; tauto.
    + simpl. tauto.
    + destruct (Nat.eqb dimension 3); reflexivity.
    + unfold DropAtomisation.MAXlevel. lia.
    + unfold DropAtomisation.refine_cond. intros H.
      apply andb_prop in H as [_ H]. now apply Z.ltb_lt.
  - exists 16, [s_f; s_u_x; s_u_y; s_KAPPA],
      [DropImpact.fErr; DropImpact.VelErr; DropImpact.VelErr; DropImpact.KErr],
      DropImpact.MAXlevel, 4.
    refine (conj _ (conj _ (conj _ (conj _ _)))).
    + simpl. tauto.
    + simpl. tauto.
    + reflexivity.
    + unfold DropImpact.MAXlevel. lia.
    + unfold DropImpact.refine_cond. intros H.
      apply andb_prop in H as [_ H]. now apply Z.ltb_lt.
Qed.

(** ** The length of a checkpoint name *)

Section NameLength.

Lemma string_length_append (a b : string) :
  String.length (a ++ b) = (String.length a + String.length b)%nat.
Proof. induction a as [|c a IH]; simpl; [reflexivity | now rewrite IH]. Qed.

Lemma spaces_length (n : nat) : String.length (Printf.spaces n) = n.
Proof. induction n; simpl; congruence. Qed.

Lemma pad_left_length (width : nat) (s : string) :
  String.length (Printf.pad_left width s) = Nat.max width (String.length s).
Proof.
  unfold Printf.pad_left. rewrite string_length_append, spaces_length. lia.
Qed.

(** The mantissa of a double has at most 53 binary digits. *)
Lemma mantissa_bound (x : float) (s : bool) (m : positive) (e : Z) :
  Prim2SF x = S754_finite s m e -> Z.pos m < 2 ^ 53.
Proof.
  intros E. pose proof (Prim2SF_valid x) as V. rewrite E in V.
  unfold SpecFloat.valid_binary, SpecFloat.bounded, SpecFloat.canonical_mantissa in V.
  apply andb_prop in V as [V _]. apply Z.eqb_eq in V.
  pose proof (digits2_pos_bound m) as B.
  unfold SpecFloat.fexp in V.
  assert (D : Z.pos (digits2_pos m) <= 53) by (unfold FloatOps.prec in V; lia).
  apply Z.lt_le_trans with (1 := B). apply Z.pow_le_mono_r; lia.
Qed.

Lemma round_half_even_le (num den bound : Z) :
  0 < den -> num <= bound * den -> Printf.round_half_even num den <= bound.
Proof.
  intros Hd Hb. unfold Printf.round_half_even.
  pose proof (Z.div_mod num den ltac:(lia)) as E.
  pose proof (Z.mod_pos_bound num den Hd) as M.
  assert (Q : num / den <= bound) by (apply Z.div_le_upper_bound; lia).
  destruct (Z.eq_dec (num / den) bound) as [Eq|Ne].
  - assert (Z0 : num mod den = 0) by nia.
    rewrite Z0. replace (2 * 0 ?= den) with Lt by (symmetry; apply Z.compare_lt_iff; lia).
    exact Q.
  - destruct (2 * (num mod den) ?= den); [destruct (Z.even _)| |]; lia.
Qed.

Lemma round_half_even_nonneg (num den : Z) :
  0 < den -> 0 <= num -> 0 <= Printf.round_half_even num den.
Proof.
  intros Hd Hn. unfold Printf.round_half_even.
  assert (Q : 0 <= num / den) by (apply Z.div_pos; lia).
  destruct (2 * (num mod den) ?= den); [destruct (Z.even _)| |]; lia.
Qed.

(** The integer part of a time up to 200 has at most three digits, and the
    four decimals are four characters. *)
Lemma digits_length_200 (k : Z) :
  0 <= k <= 200 -> (String.length (Printf.digits k) <= 3)%nat.
Proof.
  intros H.
  assert (A : forallb (fun n => Nat.leb (String.length (Printf.digits (Z.of_nat n))) 3)
                      (seq 0 201) = true) by (vm_compute; reflexivity).
  rewrite forallb_forall in A.
  specialize (A (Z.to_nat k)). rewrite Z2Nat.id in A by lia.
  apply Nat.leb_le, A, in_seq. lia.
Qed.

Lemma fraction_digits_length (r : Z) :
  0 <= r < 10000 -> String.length (Printf.fraction_digits 4 r) = 4%nat.
Proof.
  intros H.
  assert (A : forallb (fun n => Nat.eqb (String.length
                                   (Printf.fraction_digits 4 (Z.of_nat n))) 4)
                      (seq 0 (Z.to_nat 10000)) = true) by (vm_compute; reflexivity).
  rewrite forallb_forall in A.
  specialize (A (Z.to_nat r)). rewrite Z2Nat.id in A by lia.
  apply Nat.eqb_eq, A, in_seq. lia.
Qed.

(** A finite double between 0 and 200, scaled by 10^4 and rounded. *)
Lemma scaled4_bound (m : positive) (e : Z) :
  Z.pos m < 2 ^ 53 ->
  SFleb (S754_finite false m e) (S754_finite false 7036874417766400 (-45)) = true ->
  0 <= Printf.scaled4 m e <= 2000000.
Proof.
  intros Hm Hle. apply SFleb_finite_inv in Hle as He.
  unfold Printf.scaled4. replace (0 <=? e) with false by (symmetry; apply Z.leb_gt; lia).
  assert (Hp : 0 < 2 ^ (- e)) by (apply Z.pow_pos_nonneg; lia).
  split.
  - apply round_half_even_nonneg; lia.
  - apply round_half_even_le; [exact Hp|].
    destruct He as [He|[He Hm']].
    + assert (P : 2 ^ 46 <= 2 ^ (- e)) by (apply Z.pow_le_mono_r; lia).
      change (2 ^ 53) with (128 * 2 ^ 46) in Hm.
      change (2 ^ 46) with 70368744177664 in *. lia.
    + subst e. change (2 ^ (- -45)) with 35184372088832. lia.
Qed.

Lemma format_4f_length (t : float) :
  (0 <=? t)%float = true -> (t <=? 200)%float = true ->
  (String.length (Printf.format_4f t) <= 8)%nat.
Proof.
  intros H0 H1. unfold Printf.format_4f.
  rewrite leb_spec in H0, H1.
  change (Prim2SF 200) with (S754_finite false 7036874417766400 (-45)) in H1.
  change (Prim2SF 0) with (S754_zero false) in H0.
  destruct (Prim2SF t) as [s|s| |s m e] eqn:E.
  - destruct s; simpl; lia.
  - destruct s; simpl; lia.
  - simpl; lia.
  - assert (Hs : s = false) by (destruct s; [discriminate H0 | reflexivity]).
    subst s.
    pose proof (scaled4_bound m e (mantissa_bound t false m e E) H1) as B.
    cbv zeta. set (n := Printf.scaled4 m e) in *.
    rewrite !string_length_append.
    assert (Q : 0 <= n / 10000 <= 200).
    { split; [apply Z.div_pos; lia | apply Z.div_le_upper_bound; lia]. }
    pose proof (digits_length_200 _ Q).
    pose proof (fraction_digits_length (n mod 10000)
                  (Z.mod_pos_bound n 10000 ltac:(lia))) as F.
    rewrite F. simpl. lia.
Qed.

Lemma SFleb_trans (a b c : spec_float) :
  SFleb a b = true -> SFleb b c = true -> SFleb a c = true.
Proof.
  unfold SFleb, SFcompare.
  destruct a as [sa|sa| |sa ma ea], b as [sb|sb| |sb mb eb], c as [sc|sc| |sc mc ec];
    try destruct sa; try destruct sb; try destruct sc;
    intros; try discriminate; try reflexivity;
    change (Pos.compare_cont Eq) with Pos.compare in *;
    repeat match goal with
    | |- context [Z.compare ?a ?b] => destruct (Z.compare_spec a b)
    | H : context [Z.compare ?a ?b] |- _ => destruct (Z.compare_spec a b)
    | |- context [Pos.compare ?a ?b] => destruct (Pos.compare_spec a b)
    | H : context [Pos.compare ?a ?b] |- _ => destruct (Pos.compare_spec a b)
    end; subst; simpl in *; try discriminate; try reflexivity; try lia.
Qed.

Lemma leb_trans (a b c : float) :
  (a <=? b)%float = true -> (b <=? c)%float = true -> (a <=? c)%float = true.
Proof. rewrite !leb_spec. apply SFleb_trans. Qed.

(** The name of a checkpoint written at a time between 0 and 200. *)
Lemma snapshot_name_length (t : float) :
  (0 <=? t)%float = true -> (t <=? 200)%float = true ->
  (String.length ("intermediate/snapshot-" ++ Printf.format_5_4f t) <= 30)%nat.
Proof.
  intros H0 H1. rewrite string_length_append. unfold Printf.format_5_4f.
  rewrite pad_left_length. pose proof (format_4f_length t H0 H1).
  change (String.length "intermediate/snapshot-") with 22%nat. lia.
Qed.

(** The event times stay between 0 and [tmax]. *)
Lemma event_times_range (tsnap tmax : float) :
  nonneg tsnap ->
  forall fuel t, nonneg t ->
    Forall (fun x => (0 <=? x)%float = true /\ (x <=? tmax)%float = true)
           (event_times fuel t tsnap tmax).
Proof.
  intros Hs. induction fuel as [|n IH]; intros t Ht; simpl; [constructor|].
  destruct (t <=? tmax)%float eqn:E; [|constructor].
  constructor; [split; [exact Ht | exact E]|].
  apply IH. now apply add_nonneg.
Qed.

End NameLength.

(** X10.  A snapshot name fits the 80 bytes of [nameOut], terminator
    included, at every time between 0 and [tmax], hence at every event time
    of [writingFiles] however long the schedule is run, in both cases.  The
    bound on the time is needed: [sprintf] is given no length, and at
    [t = 1e53] the name no longer fits. *)
Theorem snapshot_name_fits_buffer (t : float) (fuel : nat) :
  ((0 <=? t)%float = true -> (t <=? DropAtomisation.tmax)%float = true ->
   (String.length (DropAtomisation.nameOut t) < DropAtomisation.buffer_size)%nat) /\
  ((0 <=? t)%float = true -> (t <=? DropImpact.tmax)%float = true ->
   (String.length (DropImpact.nameOut t) < DropImpact.buffer_size)%nat) /\
  Forall (fun x => (String.length (DropAtomisation.nameOut x)
                    < DropAtomisation.buffer_size)%nat)
         (DropAtomisation.writingFiles_times fuel) /\
  Forall (fun x => (String.length (DropImpact.nameOut x)
                    < DropImpact.buffer_size)%nat)
         (DropImpact.writingFiles_times fuel) /\
  (DropAtomisation.buffer_size <= String.length (DropAtomisation.nameOut 1e53))%nat.
Proof.
  assert (A : forall x, (0 <=? x)%float = true ->
                        (x <=? DropAtomisation.tmax)%float = true ->
              (String.length (DropAtomisation.nameOut x)
               < DropAtomisation.buffer_size)%nat).
  { intros x H0 H1. pose proof (snapshot_name_length x H0 H1) as L.
    unfold DropAtomisation.nameOut, DropAtomisation.buffer_size. lia. }
  assert (I : forall x, (0 <=? x)%float = true ->
                        (x <=? DropImpact.tmax)%float = true ->
              (String.length (DropImpact.nameOut x) < DropImpact.buffer_size)%nat).
  { intros x H0 H1.
    pose proof (snapshot_name_length x H0 (leb_trans x _ 200 H1 eq_refl)) as L.
    unfold DropImpact.nameOut, DropImpact.buffer_size. lia. }
  refine (conj (A t) (conj (I t) (conj _ (conj _ _)))).
  - unfold DropAtomisation.writingFiles_times.
    eapply Forall_impl; [|apply event_times_range; reflexivity].
    intros x [H0 H1]. now apply A.
  - unfold DropImpact.writingFiles_times.
    eapply Forall_impl; [|apply event_times_range; reflexivity].
    intros x [H0 H1]. now apply I.
  - vm_compute. repeat constructor.
Qed.

(** ** A fluid at rest *)

Section FluidAtRest.

Variable rho : float -> float.
Variable pow : float -> nat -> float.

Let N : Numerics := binary64 rho pow.

(** The square of a zero is the positive zero. *)
Lemma sq_zero (x : float) : is_zero x -> Prim2SF (x * x) = S754_zero false.
Proof.
  intros H. apply is_zero_spec in H as [s E]. rewrite mul_spec, E.
  destruct s; reflexivity.
Qed.

Lemma sq_is_zero (x : float) : is_zero x -> is_zero (x * x)%float.
Proof. intros H. apply is_zero_spec. exists false. now apply sq_zero. Qed.

Lemma add_zero (a b : float) : is_zero a -> is_zero b -> is_zero (a + b)%float.
Proof.
  intros Ha Hb. apply is_zero_spec in Ha as [sa Ea]. apply is_zero_spec in Hb as [sb Eb].
  apply is_zero_spec. rewrite add_spec, Ea, Eb.
  destruct sa, sb; eexists; reflexivity.
Qed.

(** A product with a zero factor is a zero unless it is a NaN. *)
Lemma mul_zero_r (a b : float) :
  is_zero b -> is_nan (a * b)%float = false -> is_zero (a * b)%float.
Proof.
  intros Hb Hn. apply is_zero_spec in Hb as [sb Eb].
  apply is_nan_false in Hn. apply is_zero_spec. rewrite mul_spec, Eb in *.
  destruct (Prim2SF a) as [s|s| |s m e]; simpl in *; try congruence; eexists; reflexivity.
Qed.

Lemma mul_zero_l (a b : float) :
  is_zero a -> is_nan (a * b)%float = false -> is_zero (a * b)%float.
Proof.
  intros Ha Hn. apply is_zero_spec in Ha as [sa Ea].
  apply is_nan_false in Hn. apply is_zero_spec. rewrite mul_spec, Ea in *.
  destruct (Prim2SF b) as [s|s| |s m e]; simpl in *; try congruence; eexists; reflexivity.
Qed.

Lemma atomisation_term_at_rest (dimension : nat) (c : Cell float) :
  at_rest dimension c ->
  is_nan (DropAtomisation.ke_term N dimension c) = false ->
  is_zero (DropAtomisation.ke_term N dimension c).
Proof.
  intros (Hx & Hy & Hz) Hn.
  unfold DropAtomisation.ke_term, sq in *. simpl in *.
  apply mul_not_nan in Hn as Hn1. destruct Hn1 as [Hn1 _].
  apply mul_zero_l; [|assumption].
  apply mul_zero_r; [|assumption].
  destruct (Nat.eqb_spec dimension 3) as [E|E].
  - apply add_zero; [apply add_zero|]; auto using sq_is_zero.
  - apply add_zero; auto using sq_is_zero.
Qed.

Lemma impact_term_at_rest (c : Cell float) :
  at_rest 2 c ->
  is_nan (DropImpact.ke_term N c) = false ->
  is_zero (DropImpact.ke_term N c).
Proof.
  intros (Hx & Hy & _) Hn.
  unfold DropImpact.ke_term, sq in *. simpl in *.
  apply mul_not_nan in Hn as Hn1. destruct Hn1 as [Hn1 _].
  apply mul_not_nan in Hn1 as Hn2. destruct Hn2 as [_ Hn2].
  apply mul_zero_l; [|assumption].
  apply mul_zero_r; [|assumption].
  apply mul_zero_r; [|assumption].
  apply add_zero; auto using sq_is_zero.
Qed.

(** A sum of zeros is a zero, unless a NaN summand turns it into a NaN. *)
Lemma foreach_sum_zero (term : Cell float -> float) (cells : list (Cell float)) :
  (forall c, In c cells -> is_nan (term c) = false -> is_zero (term c)) ->
  forall acc,
    is_zero acc ->
    is_nan (fold_left (fun ke c => (ke + term c)%float) cells acc) = false ->
    is_zero (fold_left (fun ke c => (ke + term c)%float) cells acc).
Proof.
  induction cells as [|c cells IH]; intros Ht acc Hacc Hn; simpl in *; [assumption|].
  assert (Hs : is_nan (acc + term c)%float = false).
  { destruct (is_nan (acc + term c)%float) eqn:E; [|reflexivity].
    rewrite (foreach_sum_nan_acc term cells _ E) in Hn. discriminate. }
  apply IH; [intros c' Hc'; apply Ht; now right | | assumption].
  apply add_not_nan in Hs as Hs'. destruct Hs' as [_ Hs'].
  apply add_zero; [assumption | apply Ht; [now left | assumption]].
Qed.

(** A zero passes the assertion and is below the lower bound of both cases. *)
Lemma zero_is_too_small (ke : float) :
  is_zero ke ->
  (-1e-10 <? ke)%float = true /\
  (ke <? 1e-6)%float = true /\ (1e6 <? ke)%float = false /\
  (ke <? 1e-8)%float = true /\ (1e2 <? ke)%float = false.
Proof.
  intros H. apply is_zero_spec in H as [s E].
  rewrite !ltb_spec, E. destruct s; repeat apply conj; reflexivity.
Qed.

(** The same for the partial sums of the workers, added in any order. *)
Lemma mesh_sum_zero (term : Cell float -> float) (mesh : Mesh float) :
  (forall c, In c (cells_of mesh) -> is_nan (term c) = false -> is_zero (term c)) ->
  is_nan (foreach_sum N term mesh) = false ->
  is_zero (foreach_sum N term mesh).
Proof.
  induction mesh as [cells|a IHa b IHb]; intros Ht Hn.
  - apply (foreach_sum_zero term cells Ht); [reflexivity | exact Hn].
  - simpl in *. apply add_not_nan in Hn as Hn'. destruct Hn' as [Ha Hb].
    apply add_zero; [apply IHa | apply IHb]; try assumption;
      intros c Hc; apply Ht, in_or_app; auto.
Qed.

End FluidAtRest.

(** X11.  A fluid at rest does not get past step 10.  When every velocity
    component of every cell is a zero, the kinetic energy [logWriting]
    computes is a zero unless it is a NaN, whatever the densities and the
    cell sizes are and however many cells there are; on rank 0, with the log
    files openable, every step [i > 10] then stops the run with the "too
    small" reason, in both cases. *)
Theorem fluid_at_rest_is_stopped
        (rho : float -> float) (pow : float -> nat -> float)
        (w : World) (i : Z) (dt t : float) (cells : Mesh float) :
  pid w = 0 ->
  10 < i ->
  can_open w 1%nat "log" = true ->
  (let ke := DropAtomisation.kinetic_energy (binary64 rho pow)
               DropAtomisation.dimension cells in
   Forall (at_rest DropAtomisation.dimension) (cells_of cells) ->
   is_nan ke = false ->
   is_zero ke /\
   (can_open w 0%nat DropAtomisation.logFile = true ->
    decides (DropAtomisation.logWriting rho pow w i dt t cells)
            (STOP_ABORT DropAtomisation.too_small))) /\
  (let ke := DropImpact.kinetic_energy (binary64 rho pow) cells in
   Forall (at_rest 2) (cells_of cells) ->
   is_nan ke = false ->
   is_zero ke /\
   (can_open w 0%nat "log" = true ->
    decides (DropImpact.logWriting rho pow w i dt t cells)
            (STOP_ABORT DropImpact.too_small))).
Proof.
  intros Hp Hi He.
  apply Z.eqb_eq in Hp. apply Z.ltb_lt in Hi as Hi'.
  assert (Hi0 : (i =? 0) = false) by (apply Z.eqb_neq; lia).
  split; intros ke Hr Hn.
  - assert (Hz : is_zero ke).
    { apply mesh_sum_zero; [| exact Hn].
      intros c Hc. apply atomisation_term_at_rest.
      rewrite Forall_forall in Hr. now apply Hr. }
    split; [exact Hz|]. intros H0.
    destruct (zero_is_too_small ke Hz) as (Z1 & Z2 & Z3 & _ & _).
    rewrite atomisation_logWriting_unfold. fold ke.
    unfold DropAtomisation.logWriting_body, fopen.
    rewrite Hp, Hi', Hi0, He, H0, Z1, Z2, Z3. cbn. tauto.
  - assert (Hz : is_zero ke).
    { apply mesh_sum_zero; [| exact Hn].
      intros c Hc. apply impact_term_at_rest.
      rewrite Forall_forall in Hr. now apply Hr. }
    split; [exact Hz|]. intros H0.
    destruct (zero_is_too_small ke Hz) as (Z1 & _ & _ & Z2 & Z3).
    destruct (impact_logWriting_unfold rho pow w i dt t cells) as [Et Eo].
    unfold decides. rewrite Et, Eo. fold ke.
    unfold DropImpact.logWriting_body, fopen.
    rewrite Hp, Hi', Hi0, He, H0, Z1, Z2, Z3. cbn. tauto.
Qed.

(** Rank 0 at step 11 with one cell of liquid at rest. *)
Lemma fluid_at_rest_is_stopped_witness :
  decides (DropAtomisation.logWriting (rho_two_phase 830 1) pow_mul rank0 11 0.1 1.1
             (Worker [cell_at_rest]))
          (STOP_ABORT DropAtomisation.too_small) /\
  decides (DropImpact.logWriting (rho_two_phase 1 1e-3) pow_mul rank0 11 0.1 1.1
             (Worker [cell_at_rest]))
          (STOP_ABORT DropImpact.too_small).
Proof.
  assert (R : forall d, at_rest d cell_at_rest).
  { intros d. refine (conj eq_refl (conj eq_refl (fun _ => eq_refl))). }
  destruct (fluid_at_rest_is_stopped (rho_two_phase 830 1) pow_mul rank0 11 0.1 1.1
              (Worker [cell_at_rest]) eq_refl eq_refl eq_refl) as [Ha _].
  destruct (fluid_at_rest_is_stopped (rho_two_phase 1 1e-3) pow_mul rank0 11 0.1 1.1
              (Worker [cell_at_rest]) eq_refl eq_refl eq_refl) as [_ Hb].
  destruct (Ha (Forall_cons _ (R _) (Forall_nil _)) eq_refl) as [_ Ha'].
  destruct (Hb (Forall_cons _ (R _) (Forall_nil _)) eq_refl) as [_ Hb'].
  exact (conj (Ha' eq_refl) (Hb' eq_refl)).
Defined.

(** ** An abort whose message file cannot be opened *)

(** X12.  The result of the second [fopen] of [logWriting] is not checked.
    On rank 0 at a step [i > 10], when the energy is out of bounds and the
    file [log] cannot be opened for the abort message, the callback has
    already announced the stop on the status stream, but it then hands the
    NULL stream to [fprintf]: it writes the reason to no file, writes no
    checkpoint and does not return 1. *)
Theorem abort_message_file_unchecked (w : World) (i : Z) (dt t ke : float) :
  pid w = 0 ->
  10 < i ->
  can_open w 1%nat "log" = false ->
  (-1e-10 <? ke)%float = true ->
  (can_open w 0%nat DropAtomisation.logFile = true ->
   (1e6 <? ke)%float = true \/ (ke <? 1e-6)%float = true ->
   let r := DropAtomisation.logWriting_body w i dt t ke in
   outcome r = inr NullStream /\
   In (Fprintf ferr "%s"
         [StrArg (if (1e6 <? ke)%float then DropAtomisation.blew_up
                  else DropAtomisation.too_small)]) (trace r) /\
   written_with "%s" (trace r) = [] /\
   dumped_files (trace r) = [] /\
   stream_run Closed (trace r) = Some Closed) /\
  (can_open w 0%nat "log" = true ->
   (1e2 <? ke)%float = true \/ (ke <? 1e-8)%float = true ->
   let r := DropImpact.logWriting_body w i dt t ke in
   outcome r = inr NullStream /\
   In (Fprintf ferr "%s"
         [StrArg (if (1e2 <? ke)%float then DropImpact.blew_up
                  else DropImpact.too_small)]) (trace r) /\
   written_with "%s" (trace r) = [] /\
   dumped_files (trace r) = [] /\
   stream_run Closed (trace r) = Some Closed).
Proof.
  intros Hp Hi He Ha.
  apply Z.eqb_eq in Hp. apply Z.ltb_lt in Hi as Hi'.
  assert (Hi0 : (i =? 0) = false) by (apply Z.eqb_neq; lia).
  unfold DropAtomisation.logWriting_body, DropImpact.logWriting_body, fopen.
  rewrite Hp, Hi', Hi0, He, Ha.
  split; intros H0 Hk; rewrite H0; cbv zeta.
  - destruct (1e6 <? ke)%float, (ke <? 1e-6)%float;
      try (destruct Hk; discriminate);
      (refine (conj eq_refl (conj _ (conj eq_refl (conj eq_refl eq_refl))));
       cbn; tauto).
  - destruct (1e2 <? ke)%float, (ke <? 1e-8)%float;
      try (destruct Hk; discriminate);
      (refine (conj eq_refl (conj _ (conj eq_refl (conj eq_refl eq_refl))));
       cbn; tauto).
Qed.

(** Rank 0 at step 11 with an energy of 2e6, when only the run log opens. *)
Lemma abort_message_file_unchecked_witness :
  outcome (DropAtomisation.logWriting_body rank0_run_log_only 11 0.1 1.1 2e6) =
    inr NullStream /\
  outcome (DropImpact.logWriting_body rank0_run_log_only 11 0.1 1.1 2e6) =
    inr NullStream.
Proof.
  destruct (abort_message_file_unchecked rank0_run_log_only 11 0.1 1.1 2e6
              eq_refl eq_refl eq_refl eq_refl) as [Ha Hb].
  destruct (Ha eq_refl (or_introl eq_refl)) as [A _].
  destruct (Hb eq_refl (or_introl eq_refl)) as [B _].
  exact (conj A B).
Defined.
